(** * news_collector: the source-aggregation pipeline

    A shallow embedding of the item model ([sources/base.py]), the source
    registry ([sources/base.py]), the three kinds of source
    ([sources/hackernews.py], [sources/rss_feeds.py],
    [sources/github_trending.py]) and the aggregator
    ([skills/news_fetcher.py]), and of what surrounds them: the
    configuration ([config.py]), the report data
    ([skills/report_generator.py]), the mail sender
    ([skills/email_sender.py]), the constructor of the analyzer
    ([skills/ai_analyzer.py]) and the [run] command ([main.py]), with the
    properties of the pipeline proved over it. *)

From Stdlib Require Import ZArith Lia Ascii String.
From stdpp Require Import gmap strings list fin_maps.

Local Open Scope string_scope.
Local Open Scope list_scope.

(** ** Python strings: [str.strip] *)

Module PyStr.

(** A character of a string is a code point below 256. Text in other
    scripts occurs below in constants only (messages and descriptions,
    written in UTF-8), which no function strips.

    [str.isspace] on one character: TAB, LF, VT, FF, CR, the separators FS,
    GS, RS, US, SPACE, NEL and NBSP. *)
Definition isspace (c : ascii) : bool :=
  let n := N_of_ascii c in
  ((9 <=? n) && (n <=? 13) || (28 <=? n) && (n <=? 32)
   || (n =? 133) || (n =? 160))%N.

(** [s.lstrip()] *)
Fixpoint lstrip (s : string) : string :=
  match s with
  | EmptyString => EmptyString
  | String c s' => if isspace c then lstrip s' else s
  end.

(** [s.rstrip()] *)
Fixpoint rstrip (s : string) : string :=
  match s with
  | EmptyString => EmptyString
  | String c s' =>
      match rstrip s' with
      | EmptyString => if isspace c then EmptyString else String c EmptyString
      | r => String c r
      end
  end.

(** [s.strip()] *)
Definition strip (s : string) : string := rstrip (lstrip s).

(** Truth value of a string: [bool(s)]. *)
Definition truthy (s : string) : bool :=
  match s with EmptyString => false | String _ _ => true end.

(** Every character of [s] is whitespace. *)
Fixpoint all_space (s : string) : bool :=
  match s with
  | EmptyString => true
  | String c s' => isspace c && all_space s'
  end.

(** The first, respectively the last, character of [s] is whitespace. *)
Definition head_space (s : string) : bool :=
  match s with EmptyString => false | String c _ => isspace c end.

Fixpoint last_space (s : string) : bool :=
  match s with
  | EmptyString => false
  | String c EmptyString => isspace c
  | String _ s' => last_space s'
  end.

(** A string that [strip] leaves alone. *)
Definition trimmed (s : string) : Prop :=
  head_space s = false ∧ last_space s = false.

End PyStr.

(** ** Python values stored in dictionaries *)

#[local] Set Warnings "-register-all".
Inductive pyval : Type :=
| PNone
| PBool (b : bool)
| PInt (z : Z)
| PStr (s : string)
| PList (l : list pyval)
| PDict (d : list (string * pyval)).

(** A [dict] whose order of insertion is kept, as [NewsItem.extra]. *)
Abbreviation pydict := (list (string * pyval)).

(** ** The item model ([sources/base.py]) *)

(** [@dataclass class NewsItem], with the field types it declares. *)
Record NewsItem : Type := mkNewsItem {
  title : string;
  url : string;
  summary : string;
  source : string;
  published_at : string;
  score : Z;
  extra : pydict
}.

(** [NewsItem.__post_init__]: [x.strip() if x else ""] on a value that is a
    string or [None]. *)
Definition clean (x : option string) : string :=
  match x with
  | Some s => if PyStr.truthy s then PyStr.strip s else ""
  | None => ""
  end.

(** [NewsItem(title=.., url=.., summary=.., source=.., published_at=..,
    score=.., extra=..)]: the generated [__init__] stores the arguments, then
    [__post_init__] cleans [title] and [summary]. [None] models a [None]
    passed for one of the two fields that [__post_init__] guards. *)
Definition new_NewsItem (title0 : option string) (url0 : string)
    (summary0 : option string) (source0 published_at0 : string)
    (score0 : Z) (extra0 : pydict) : NewsItem :=
  {| title := clean title0;
     url := url0;
     summary := clean summary0;
     source := source0;
     published_at := published_at0;
     score := score0;
     extra := extra0 |}.

(** [NewsItem.to_dict] *)
Definition to_dict (self : NewsItem) : gmap string pyval :=
  <["title" := PStr (title self)]>
  (<["url" := PStr (url self)]>
  (<["summary" := PStr (summary self)]>
  (<["source" := PStr (source self)]>
  (<["published_at" := PStr (published_at self)]>
  (<["score" := PInt (score self)]>
  (<["extra" := PDict (extra self)]> ∅)))))).

(** What a call of the constructor can raise. *)
Inductive ctor_error : Type :=
| MissingArgument (field : string)
    (** [TypeError: __init__() missing 1 required positional argument] *)
| UnexpectedKeyword (key : string)
    (** [TypeError: __init__() got an unexpected keyword argument] *)
| NoStrip (field : string)
    (** [AttributeError: object has no attribute 'strip'], of
        [__post_init__] on a true value that is no string *)
| OutsideDeclaredType (field : string).
    (** not an error of Python, which stores any value: the value passed is
        not of the type the dataclass declares for the field, and the
        record above cannot hold it; what Python does with such a value is
        [NewsItem_init] below *)

Definition field_names : list string :=
  ["title"; "url"; "summary"; "source"; "published_at"; "score"; "extra"].

Definition as_str (field : string) (v : pyval) : ctor_error + string :=
  match v with PStr s => inr s | _ => inl (OutsideDeclaredType field) end.

Definition as_opt_str (field : string) (v : pyval)
    : ctor_error + option string :=
  match v with
  | PStr s => inr (Some s)
  | PNone => inr None
  | _ => inl (OutsideDeclaredType field)
  end.

Definition as_int (field : string) (v : pyval) : ctor_error + Z :=
  match v with PInt z => inr z | _ => inl (OutsideDeclaredType field) end.

Definition as_dict (field : string) (v : pyval) : ctor_error + pydict :=
  match v with PDict d => inr d | _ => inl (OutsideDeclaredType field) end.

(** The value [v] has the type that the dataclass declares for [field]. *)
Definition has_declared_type (field : string) (v : pyval) : Prop :=
  if decide (field = "score") then ∃ z, v = PInt z
  else if decide (field = "extra") then ∃ d, v = PDict d
  else ∃ x, v = PStr x.

(** Sequencing of steps that can raise. *)
Definition ebind {E A B} (m : E + A) (k : A → E + B) : E + B :=
  match m with inl e => inl e | inr a => k a end.

Notation "'try' x <- m ; k" := (ebind m (λ x, k))
  (at level 10, x name, m at level 100, k at level 200,
   format "'[v' 'try'  x  <-  m ; '/' k ']'").

(** A keyword argument without a default. *)
Definition required {A} (kw : gmap string pyval) (field : string)
    (conv : string → pyval → ctor_error + A) : ctor_error + A :=
  match kw !! field with
  | Some v => conv field v
  | None => inl (MissingArgument field)
  end.

(** A keyword argument with a default. *)
Definition defaulted {A} (kw : gmap string pyval) (field : string)
    (conv : string → pyval → ctor_error + A) (dflt : A) : ctor_error + A :=
  match kw !! field with
  | Some v => conv field v
  | None => inr dflt
  end.

(** [NewsItem] called on an unpacked dictionary of keyword arguments, as
    [main.py] builds the items of a saved file in [analyze]. *)
Definition NewsItem_of_kwargs (kw : gmap string pyval)
    : ctor_error + NewsItem :=
  match List.find (λ k, negb (bool_decide (k ∈ field_names)))
                  (map fst (map_to_list kw)) with
  | Some k => inl (UnexpectedKeyword k)
  | None =>
      try t <- required kw "title" as_opt_str;
      try u <- required kw "url" as_str;
      try s <- defaulted kw "summary" as_opt_str (Some "");
      try src <- defaulted kw "source" as_str "";
      try p <- defaulted kw "published_at" as_str "";
      try sc <- defaulted kw "score" as_int 0%Z;
      try e <- defaulted kw "extra" as_dict [];
      inr (new_NewsItem t u s src p sc e)
  end.

(** ** The dataclass without its annotations *)

(** Python does not check the annotations of a dataclass: the generated
    [__init__] stores each argument as it is passed, of whatever type, and
    [__post_init__] then replaces [title] and [summary]. An instance holds
    seven values. *)
Record NewsItemObject : Type := mkNewsItemObject {
  obj_title : pyval;
  obj_url : pyval;
  obj_summary : pyval;
  obj_source : pyval;
  obj_published_at : pyval;
  obj_score : pyval;
  obj_extra : pyval
}.

(** [bool(v)] *)
Definition py_bool (v : pyval) : bool :=
  match v with
  | PNone => false
  | PBool b => b
  | PInt z => negb (z =? 0)%Z
  | PStr s => PyStr.truthy s
  | PList [] => false
  | PList (_ :: _) => true
  | PDict [] => false
  | PDict (_ :: _) => true
  end.

(** [x.strip() if x else ""]: a false value gives the empty string, a
    string that is not empty is stripped, and another true value has no
    [strip]. *)
Definition clean_value (field : string) (x : pyval) : ctor_error + pyval :=
  if py_bool x then
    match x with
    | PStr s => inr (PStr (PyStr.strip s))
    | _ => inl (NoStrip field)
    end
  else inr (PStr "").

(** An argument of any type. *)
Definition as_value (field : string) (v : pyval) : ctor_error + pyval :=
  inr v.

(** [NewsItem] called on an unpacked dictionary of keyword arguments, as
    Python runs it: the generated [__init__] binds the arguments and fills
    in the defaults, then [__post_init__] cleans [title] and after it
    [summary]. *)
Definition NewsItem_init (kw : gmap string pyval)
    : ctor_error + NewsItemObject :=
  match List.find (λ k, negb (bool_decide (k ∈ field_names)))
                  (map fst (map_to_list kw)) with
  | Some k => inl (UnexpectedKeyword k)
  | None =>
      try t <- required kw "title" as_value;
      try u <- required kw "url" as_value;
      try s <- defaulted kw "summary" as_value (PStr "");
      try src <- defaulted kw "source" as_value (PStr "");
      try p <- defaulted kw "published_at" as_value (PStr "");
      try sc <- defaulted kw "score" as_value (PInt 0);
      try e <- defaulted kw "extra" as_value (PDict []);
      try t' <- clean_value "title" t;
      try s' <- clean_value "summary" s;
      inr {| obj_title := t';
             obj_url := u;
             obj_summary := s';
             obj_source := src;
             obj_published_at := p;
             obj_score := sc;
             obj_extra := e |}
  end.

(** The instance that a typed item stands for. *)
Definition object_of (it : NewsItem) : NewsItemObject :=
  {| obj_title := PStr (title it);
     obj_url := PStr (url it);
     obj_summary := PStr (summary it);
     obj_source := PStr (source it);
     obj_published_at := PStr (published_at it);
     obj_score := PInt (score it);
     obj_extra := PDict (extra it) |}.

(** [NewsItem.to_dict] on an instance *)
Definition object_to_dict (self : NewsItemObject) : gmap string pyval :=
  <["title" := obj_title self]>
  (<["url" := obj_url self]>
  (<["summary" := obj_summary self]>
  (<["source" := obj_source self]>
  (<["published_at" := obj_published_at self]>
  (<["score" := obj_score self]>
  (<["extra" := obj_extra self]> ∅)))))).

(** The values of the seven attributes, by name. *)
Definition attributes (o : NewsItemObject) : list (string * pyval) :=
  [("title", obj_title o); ("url", obj_url o); ("summary", obj_summary o);
   ("source", obj_source o); ("published_at", obj_published_at o);
   ("score", obj_score o); ("extra", obj_extra o)].

(** ** Effects: exceptions and printed messages *)

(** An exception object. [PyException] is an instance of [Exception];
    [Cancelled] is [asyncio.CancelledError], a [BaseException] that is not an
    [Exception]. *)
Inductive pyexc : Type :=
| PyException (msg : string)
| Cancelled.

(** The result of awaiting a coroutine: a value or a raised exception. It is
    also the element that [asyncio.gather(.., return_exceptions=True)] puts
    in its result list, where [Raise e] stands for the exception object. *)
Inductive outcome (A : Type) : Type :=
| Return (a : A)
| Raise (e : pyexc).
Arguments Return {A} a.
Arguments Raise {A} e.

(** The messages that the aggregator prints, and the one that an RSS
    source prints, which is in the log of its own [fetch] only. *)
Inductive event : Type :=
| NoEnabledSource
    (** the warning of [fetch_all] when no source is enabled *)
| FetchFailed (source_name : string) (e : pyexc)
    (** [fetch_all]: the source of that name failed with [e] *)
| SourceNotFound (source_name : string)
    (** the error line of [fetch_source] for a name that is not registered *)
| RSSFailed (source_name : string) (e : pyexc).
    (** [RSSSourceBase.fetch]: the feed of that source failed with [e] *)

(** A computation that prints and then returns or raises. *)
Definition M (A : Type) : Type := list event * outcome A.

Definition ret {A} (a : A) : M A := ([], Return a).

Definition bind {A B} (m : M A) (k : A → M B) : M B :=
  match m with
  | (log, Return a) => let '(log', r) := k a in (log ++ log', r)
  | (log, Raise e) => (log, Raise e)
  end.

Definition print (ev : event) : M unit := ([ev], Return tt).

Definition raise {A} (e : pyexc) : M A := ([], Raise e).

(** Awaiting a coroutine that prints nothing. *)
Definition await {A} (r : outcome A) : M A := ([], r).

Notation "'do' x <- m ; k" := (bind m (λ x, k))
  (at level 10, x name, m at level 100, k at level 200,
   format "'[v' 'do'  x  <-  m ; '/' k ']'").
Notation "m ;; k" := (bind m (λ _, k))
  (at level 100, k at level 200, right associativity).

(** What was printed, and what came back. *)
Definition printed {A} (m : M A) : list event := fst m.
Definition result {A} (m : M A) : outcome A := snd m.

(** [await asyncio.gather( *tasks, return_exceptions=True)]: every task runs
    to its end, the exceptions are results like the values, and the call
    itself does not raise. *)
Fixpoint gather {A} (tasks : list (M A)) : M (list (outcome A)) :=
  match tasks with
  | [] => ret []
  | (log, r) :: tasks' =>
      let '(log', rs) := gather tasks' in
      (log ++ log',
       match rs with
       | Return rs' => Return (r :: rs')
       | Raise e => Raise e
       end)
  end.

(** ** The source capability and the registry ([sources/base.py]) *)

(** What [fetch] hands back when it returns: a list of items, or a value
    that is no list. *)
Inductive fetched : Type :=
| FList (items : list NewsItem)
| FOther.

(** A subclass of [NewsSource]: its three class attributes and what
    awaiting [cls().fetch(limit=limit)] gives. No source class has an
    [__init__] of its own, so [cls()] itself does not raise. A line that a
    source prints while it runs is not recorded here: under [gather] it
    falls between the lines of the other tasks as the event loop schedules
    them. The log of the aggregator below holds the lines that the
    aggregator prints itself. *)
Record NewsSource : Type := mkNewsSource {
  name : string;
  description : string;
  enabled : bool;
  fetch : Z → outcome fetched
}.

(** [_registry]: a [dict], whose entries stay in the order in which their
    keys were first set. *)
Definition Registry : Type := list (string * NewsSource).

(** [d[k] = v] *)
Fixpoint dict_set {V} (k : string) (v : V) (d : list (string * V))
    : list (string * V) :=
  match d with
  | [] => [(k, v)]
  | (k', v') :: d' =>
      if decide (k' = k) then (k, v) :: d' else (k', v') :: dict_set k v d'
  end.

(** [d.get(k)] *)
Fixpoint dict_get {V} (k : string) (d : list (string * V)) : option V :=
  match d with
  | [] => None
  | (k', v') :: d' => if decide (k' = k) then Some v' else dict_get k d'
  end.

(** [register_source] *)
Definition register_source (cls : NewsSource) (_registry : Registry)
    : Registry :=
  dict_set (name cls) cls _registry.

(** [get_all_sources] *)
Definition get_all_sources (_registry : Registry) : Registry := _registry.

(** [get_enabled_sources] *)
Definition get_enabled_sources (_registry : Registry) : Registry :=
  List.filter (λ '(_, cls), enabled cls) _registry.

(** [get_source] *)
Definition get_source (_registry : Registry) (name0 : string)
    : option NewsSource :=
  dict_get name0 _registry.

(** [list_sources]: name, description and flag of every entry. *)
Definition list_sources (_registry : Registry)
    : list (string * string * bool) :=
  map (λ cls, (name cls, description cls, enabled cls)) _registry.*2.

(** The registry after the registrations [classes], in that order. *)
Definition registry_of (classes : list NewsSource) : Registry :=
  fold_left (λ reg cls, register_source cls reg) classes [].

(** No key occurs twice, as in every [dict]. *)
Definition wf_registry (reg : Registry) : Prop := NoDup (reg.*1).

(** ** The aggregator ([skills/news_fetcher.py]) *)

(** The URL-dedup loop of [fetch_all] and [fetch_sources]. *)
Fixpoint dedup_loop (all_items : list NewsItem) (seen_urls : gset string)
    (unique_items : list NewsItem) : list NewsItem :=
  match all_items with
  | [] => unique_items
  | item :: rest =>
      if PyStr.truthy (url item) && negb (bool_decide (url item ∈ seen_urls))
      then dedup_loop rest (seen_urls ∪ {[url item]}) (unique_items ++ [item])
      else dedup_loop rest seen_urls unique_items
  end.

Definition dedup (all_items : list NewsItem) : list NewsItem :=
  dedup_loop all_items ∅ [].

(** The loop of [fetch_all] over [enumerate(results)]. *)
Fixpoint aggregate (source_instances : list NewsSource) (i : nat)
    (results : list (outcome fetched)) (all_items : list NewsItem)
    : M (list NewsItem) :=
  match results with
  | [] => ret all_items
  | Raise (PyException msg) :: rest =>
      match source_instances !! i with
      | Some src =>
          print (FetchFailed (name src) (PyException msg));;
          aggregate source_instances (S i) rest all_items
      | None => raise (PyException "list index out of range")
      end
  | Return (FList items) :: rest =>
      aggregate source_instances (S i) rest (all_items ++ items)
  | _ :: rest => aggregate source_instances (S i) rest all_items
  end.

(** [NewsFetcher.fetch_all] *)
Definition fetch_all (reg : Registry) (limit : Z) : M (list NewsItem) :=
  let sources := get_enabled_sources reg in
  match sources with
  | [] => print NoEnabledSource;; ret []
  | _ =>
      let source_instances := sources.*2 in
      let tasks := map (λ src, await (fetch src limit)) source_instances in
      do results <- gather tasks;
      do all_items <- aggregate source_instances 0 results [];
      ret (dedup all_items)
  end.

(** [NewsFetcher.fetch_source] *)
Definition fetch_source (reg : Registry) (source_name : string) (limit : Z)
    : M fetched :=
  match get_source reg source_name with
  | None => print (SourceNotFound source_name);; ret (FList [])
  | Some source_cls => await (fetch source_cls limit)
  end.

(** The loop of [fetch_sources] over [results]. *)
Fixpoint extend_lists (results : list (outcome fetched))
    (all_items : list NewsItem) : list NewsItem :=
  match results with
  | [] => all_items
  | Return (FList items) :: rest => extend_lists rest (all_items ++ items)
  | _ :: rest => extend_lists rest all_items
  end.

(** [NewsFetcher.fetch_sources] *)
Definition fetch_sources (reg : Registry) (source_names : list string)
    (limit : Z) : M (list NewsItem) :=
  let tasks := map (λ name0, fetch_source reg name0 limit) source_names in
  do results <- gather tasks;
  ret (dedup (extend_lists results [])).

(** What one source adds to [all_items] in [fetch_all]: the list that its
    [fetch] returned, and nothing when it raised or returned no list. *)
Definition contribution (limit : Z) (src : NewsSource) : list NewsItem :=
  match fetch src limit with
  | Return (FList items) => items
  | _ => []
  end.

(** What [fetch_all] prints for one source: a line when its [fetch] raised
    an [Exception]. *)
Definition failure_report (limit : Z) (src : NewsSource) : list event :=
  match fetch src limit with
  | Raise (PyException msg) => [FetchFailed (name src) (PyException msg)]
  | _ => []
  end.

(** What one name adds to [all_items] in [fetch_sources]. *)
Definition named_contribution (reg : Registry) (limit : Z) (name0 : string)
    : list NewsItem :=
  match result (fetch_source reg name0 limit) with
  | Return (FList items) => items
  | _ => []
  end.

(** ** The sources *)

(** [l[:k]]: the first [k] elements, and all but the last [-k] when [k] is
    negative. *)
Definition slice_to {A} (l : list A) (k : Z) : list A :=
  if (k <? 0)%Z then take (Z.to_nat (Z.of_nat (length l) + k)) l
  else take (Z.to_nat k) l.

(** What [session.get] gives when it does not raise: the status, and what
    decoding the body gives once it is asked for. *)
Record http_response (B : Type) : Type := mkResponse {
  status : Z;
  payload : outcome B
}.
Arguments mkResponse {B} status payload.
Arguments status {B} h.
Arguments payload {B} h.

(** *** [sources/hackernews.py] *)

(** What [resp.json()] decodes from the body of the top stories, as
    [fetch] uses it in [story_ids[:limit]] and in the iteration over that
    slice. A list gives its elements, whatever they are, and so does a
    string, whose elements are its characters. For every other value of
    JSON (null, a boolean, a number, an object) the slice raises an
    [Exception], a [TypeError] or a [KeyError], with the message [msg]. *)
Inductive decoded (A : Type) : Type :=
| Sequence (elements : list A)
| NoSequence (msg : string).
Arguments Sequence {A} elements.
Arguments NoSequence {A} msg.

(** [v[:limit]] on a decoded value *)
Definition decoded_slice {A} (v : decoded A) (limit : Z)
    : outcome (list A) :=
  match v with
  | Sequence elements => Return (slice_to elements limit)
  | NoSequence msg => Raise (PyException msg)
  end.

Section HackerNews.
(** The upstream: the answer to [GET topstories.json], with what
    [resp.json()] decodes from its body, and what awaiting [_fetch_story]
    gives for each of the elements, the story ids. *)
Variable story_id : Type.
Variable topstories : outcome (http_response (decoded story_id)).
Variable _fetch_story : story_id → outcome (option NewsItem).

(** The loop over [results] that keeps the instances of [NewsItem]. *)
Fixpoint keep_items (results : list (outcome (option NewsItem)))
    (items : list NewsItem) : list NewsItem :=
  match results with
  | [] => items
  | Return (Some item) :: rest => keep_items rest (items ++ [item])
  | _ :: rest => keep_items rest items
  end.

(** [HackerNewsSource.fetch] *)
Definition HackerNews_fetch (limit : Z) : M fetched :=
  do resp <- await topstories;
  if decide (status resp ≠ 200%Z) then ret (FList [])
  else
    do story_ids <- await (payload resp);
    do story_ids <- await (decoded_slice story_ids limit);
    let tasks := map (λ sid, await (_fetch_story sid)) story_ids in
    do results <- gather tasks;
    ret (FList (keep_items results [])).

Definition HackerNewsSource : NewsSource :=
  {| name := "HackerNews";
     description := "Hacker News 热门技术新闻";
     enabled := true;
     fetch := λ limit, result (HackerNews_fetch limit) |}.
End HackerNews.
Arguments HackerNews_fetch {story_id} topstories _fetch_story limit.
Arguments HackerNewsSource {story_id} topstories _fetch_story.

(** *** [sources/rss_feeds.py] *)

Section RSS.
Variables (rss_name rss_description feed_url : string) (rss_enabled : bool).
(** The upstream: the answer to [GET feed_url], with the entries that
    [feedparser.parse] finds in its text as its decoded body, and what
    [_parse_entry] gives for each entry. *)
Variable entry : Type.
Variable feed : outcome (http_response (list entry)).
Variable _parse_entry : entry → outcome (option NewsItem).

(** The loop over [feed.entries[:limit]]: the items so far, and the
    exception that stopped it, if any. *)
Fixpoint parse_entries (entries : list entry) (items : list NewsItem)
    : list NewsItem * option pyexc :=
  match entries with
  | [] => (items, None)
  | e :: rest =>
      match _parse_entry e with
      | Return (Some item) => parse_entries rest (items ++ [item])
      | Return None => parse_entries rest items
      | Raise exc => (items, Some exc)
      end
  end.

(** The body of the [try]: the value of [items] when it ends, and the
    exception that ended it, if any. *)
Definition rss_try (limit : Z) : list NewsItem * option pyexc :=
  match feed with
  | Raise exc => ([], Some exc)
  | Return resp =>
      if decide (status resp ≠ 200%Z) then ([], None)
      else
        match payload resp with
        | Raise exc => ([], Some exc)
        | Return entries => parse_entries (slice_to entries limit) []
        end
  end.

(** [RSSSourceBase.fetch]: [except Exception] prints and falls through to
    [return items]. *)
Definition RSS_fetch (limit : Z) : M fetched :=
  if negb (PyStr.truthy feed_url) then ret (FList [])
  else
    match rss_try limit with
    | (items, None) => ret (FList items)
    | (items, Some (PyException msg)) =>
        print (RSSFailed rss_name (PyException msg));; ret (FList items)
    | (_, Some Cancelled) => raise Cancelled
    end.

Definition RSSSource : NewsSource :=
  {| name := rss_name;
     description := rss_description;
     enabled := rss_enabled;
     fetch := λ limit, result (RSS_fetch limit) |}.
End RSS.

(** The five feeds that [rss_feeds.py] registers, each over its own
    upstream. The last one is registered disabled. The descriptions are
    the text of the source in UTF-8. *)
Section RSSPresets.
Variable entry : Type.
Variable feed : outcome (http_response (list entry)).
Variable _parse_entry : entry → outcome (option NewsItem).

Definition TechCrunchSource : NewsSource :=
  RSSSource "TechCrunch" "TechCrunch 科技新闻"
            "https://techcrunch.com/feed/" true
            entry feed _parse_entry.
Definition Kr36Source : NewsSource :=
  RSSSource "36Kr" "36氪 创投资讯" "https://36kr.com/feed" true
            entry feed _parse_entry.
Definition SSPAISource : NewsSource :=
  RSSSource "SSPAI" "少数派 效率工具与科技" "https://sspai.com/feed" true
            entry feed _parse_entry.
Definition V2EXSource : NewsSource :=
  RSSSource "V2EX" "V2EX 技术社区热帖"
            "https://www.v2ex.com/index.xml" true
            entry feed _parse_entry.
Definition HNRSSSource : NewsSource :=
  RSSSource "HNRSS" "Hacker News RSS (备用源)"
            "https://hnrss.org/frontpage" false
            entry feed _parse_entry.
End RSSPresets.

(** *** [sources/github_trending.py] *)

Section GitHubTrending.
(** The upstream: the answer to [GET https://github.com/trending], with
    the [article.Box-row] elements of its page as its decoded body, and
    what [_parse_repo_article] gives for each of them. *)
Variable article : Type.
Variable trending : outcome (http_response (list article)).
Variable _parse_repo_article : article → outcome (option NewsItem).

(** The loop of [_parse_trending_page] over [articles[:limit]]:
    [except Exception: continue]. *)
Fixpoint parse_articles (articles : list article) (items : list NewsItem)
    : outcome (list NewsItem) :=
  match articles with
  | [] => Return items
  | a :: rest =>
      match _parse_repo_article a with
      | Return (Some item) => parse_articles rest (items ++ [item])
      | Return None => parse_articles rest items
      | Raise (PyException _) => parse_articles rest items
      | Raise Cancelled => Raise Cancelled
      end
  end.

(** [GitHubTrendingSource._parse_trending_page], on the articles that
    [soup.select] finds in [html]. *)
Definition _parse_trending_page (articles : list article) (limit : Z)
    : outcome (list NewsItem) :=
  parse_articles (slice_to articles limit) [].

(** [GitHubTrendingSource.fetch] *)
Definition GitHubTrending_fetch (limit : Z) : M fetched :=
  do resp <- await trending;
  if decide (status resp ≠ 200%Z) then ret (FList [])
  else
    do articles <- await (payload resp);
    do items <- await (_parse_trending_page articles limit);
    ret (FList items).

Definition GitHubTrendingSource : NewsSource :=
  {| name := "GitHubTrending";
     description := "GitHub 热门开源项目";
     enabled := true;
     fetch := λ limit, result (GitHubTrending_fetch limit) |}.
End GitHubTrending.

(** ** A small registry to run the aggregator on *)

Module Scenario.
Definition item (t u src : string) : NewsItem :=
  new_NewsItem (Some t) u None src "" 0 [].

Definition returns (nm : string) (on : bool) (items : list NewsItem)
    : NewsSource :=
  {| name := nm; description := ""; enabled := on;
     fetch := λ _, Return (FList items) |}.

Definition raises (nm : string) (on : bool) (e : pyexc) : NewsSource :=
  {| name := nm; description := ""; enabled := on;
     fetch := λ _, Raise e |}.

(** Two enabled sources that share the url [u2], a disabled one, and an
    enabled one whose [fetch] always fails. *)
Definition A : NewsSource :=
  returns "A" true [item "a1" "u1" "A"; item "a2" "u2" "A"].
Definition B : NewsSource :=
  returns "B" true [item "b2" "u2" "B"; item "b3" "u3" "B"].
Definition C : NewsSource := returns "C" false [item "c4" "u4" "C"].
Definition F : NewsSource := raises "F" true (PyException "timeout").
(** A disabled source whose [fetch] fails. *)
Definition G : NewsSource := raises "G" false (PyException "refused").

Definition registry : Registry := registry_of [A; B; C].
Definition failing_registry : Registry := registry_of [A; F; B; C; G].

(** An upstream of Hacker News with three top stories, each of which
    [_fetch_story] turns into an item. *)
Definition topstories : outcome (http_response (decoded Z)) :=
  Return (mkResponse 200 (Return (Sequence [1; 2; 3]%Z))).
Definition story (sid : Z) : outcome (option NewsItem) :=
  Return (Some (item "story"
                     (if (sid =? 1)%Z then "u1"
                      else if (sid =? 2)%Z then "u2" else "u3")
                     "HackerNews")).
Definition HN : NewsSource := HackerNewsSource topstories story.
End Scenario.

(** ** The convenience function of [skills/news_fetcher.py] *)

(** [fetch_news]: [source] is [None] or a name, [sources] is [None] or a
    list of names; an empty name and an empty list are false like [None]. *)
Definition fetch_news (reg : Registry) (source0 : option string)
    (sources0 : option (list string)) (limit : Z) : M fetched :=
  match source0 with
  | Some (String c s) => fetch_source reg (String c s) limit
  | _ =>
      match sources0 with
      | Some (n :: ns) =>
          do items <- fetch_sources reg (n :: ns) limit; ret (FList items)
      | _ => do items <- fetch_all reg limit; ret (FList items)
      end
  end.

(** ** Notions used to state the further properties *)

(** Every key of the registry is the [name] of its class, as after
    [_registry[cls.name] = cls]. *)
Definition keyed_by_name (reg : Registry) : Prop :=
  Forall (λ p, p.1 = name p.2) reg.

(** The not-found lines among the lines printed. *)
Definition is_not_found (ev : event) : bool :=
  match ev with SourceNotFound _ => true | _ => false end.

(** The item in a result of [gather], when the task returned one. *)
Definition loaded (r : outcome (option NewsItem)) : option NewsItem :=
  match r with
  | Return (Some item) => Some item
  | _ => None
  end.

(** ** More of the small registry *)

Module Scenario2.
(** A source that repeats a url and has an item without a url. *)
Definition D : NewsSource :=
  Scenario.returns "D" true
    [Scenario.item "d1" "u1" "D"; Scenario.item "d2" "u1" "D";
     Scenario.item "d3" "" "D"].
Definition H : NewsSource := Scenario.raises "H" true Cancelled.

Definition registry : Registry := registry_of [Scenario.A; D; Scenario.G].
Definition broken_registry : Registry :=
  registry_of [Scenario.F; Scenario.C; H].

(** An upstream page of four entries: the first has no title, the third
    makes the parser raise, the others parse. *)
Definition parse (e : nat) : outcome (option NewsItem) :=
  match e with
  | 0 => Return None
  | 2 => Raise (PyException "bad entry")
  | _ => Return (Some (Scenario.item "entry" "u" "feed"))
  end.
Definition page : outcome (http_response (list nat)) :=
  Return (mkResponse 200 (Return [0; 1; 2; 3])).
End Scenario2.

(** ** Sorting and counting, as the report and the statistics use them *)

(** [sorted(xs, key=key, reverse=True)]. Python's sort is stable, also when
    reversed: elements with equal keys stay in the order of [xs]. That fixes
    the result, which this insertion sort computes: an element goes behind
    the elements with a larger key and before the others. *)
Fixpoint insert_desc {A} (key : A → nat) (x : A) (l : list A) : list A :=
  match l with
  | [] => [x]
  | y :: l' =>
      if (key x <? key y)%nat then y :: insert_desc key x l'
      else x :: y :: l'
  end.

Definition sorted_desc {A} (key : A → nat) (xs : list A) : list A :=
  foldr (insert_desc key) [] xs.

(** [dict(pairs)] *)
Definition dict_of_pairs {V} (pairs : list (string * V))
    : list (string * V) :=
  fold_left (λ d p, dict_set p.1 p.2 d) pairs [].

(** [d[k].append(x)] on a [defaultdict(list)] *)
Fixpoint dict_append {V} (k : string) (x : V) (d : list (string * list V))
    : list (string * list V) :=
  match d with
  | [] => [(k, [x])]
  | (k', l) :: d' =>
      if decide (k' = k) then (k', l ++ [x]) :: d'
      else (k', l) :: dict_append k x d'
  end.

(** [c[k] += 1] on a [Counter] *)
Fixpoint counter_incr (k : string) (c : list (string * nat))
    : list (string * nat) :=
  match c with
  | [] => [(k, 1)]
  | (k', n) :: c' =>
      if decide (k' = k) then (k', S n) :: c'
      else (k', n) :: counter_incr k c'
  end.

(** [Counter(xs)] *)
Definition Counter (xs : list string) : list (string * nat) :=
  fold_left (λ c k, counter_incr k c) xs [].

(** [c.most_common()], which is
    [sorted(c.items(), key=itemgetter(1), reverse=True)]. *)
Definition most_common (c : list (string * nat)) : list (string * nat) :=
  sorted_desc snd c.

(** ** The report data ([skills/report_generator.py]) *)

(** The loop of [_prepare_data] that groups the items by [source]. *)
Definition group_by_source (news_items : list NewsItem)
    : list (string * list NewsItem) :=
  fold_left (λ d item, dict_append (source item) item d) news_items [].

(** The dictionary that [_prepare_data] returns. [date] is the day of the
    call as [strftime] prints it, and [analysis] is passed through. *)
Record TemplateData (A : Type) : Type := mkTemplateData {
  date : string;
  analysis : A;
  news_by_source : list (string * list NewsItem);
  total_news : nat;
  source_count : nat
}.
Arguments mkTemplateData {A} date analysis news_by_source total_news
  source_count.
Arguments date {A} t.
Arguments analysis {A} t.
Arguments news_by_source {A} t.
Arguments total_news {A} t.
Arguments source_count {A} t.

(** [ReportGenerator._prepare_data] *)
Definition _prepare_data {A} (today : string) (analysis0 : A)
    (news_items : list NewsItem) : TemplateData A :=
  let news_by_source0 := group_by_source news_items in
  let news_by_source1 :=
    dict_of_pairs (sorted_desc (λ x, length x.2) news_by_source0) in
  {| date := today;
     analysis := analysis0;
     news_by_source := news_by_source1;
     total_news := length news_items;
     source_count := length news_by_source1 |}.

(** ** The statistics of the [fetch] command ([main.py]) *)

(** The rows of the table: [Counter(item.source for item in items)
    .most_common()]. *)
Definition source_counts (items : list NewsItem) : list (string * nat) :=
  most_common (Counter (map source items)).

(** The keys of [l] are in descending order. *)
Fixpoint descending {A} (key : A → nat) (l : list A) : Prop :=
  match l with
  | [] => True
  | a :: l' => Forall (λ b, (key b ≤ key a)%nat) l' ∧ descending key l'
  end.

(** ** Configuration ([config.py]) *)

Module config.
Section environment.
(** [os.environ], once [load_dotenv()] has run. *)
Variable environ : gmap string string.

(** [os.getenv(k)] and [os.getenv(k, d)] *)
Definition getenv (k : string) : option string := environ !! k.
Definition getenv_or (k d : string) : string := default d (environ !! k).

(** [os.getenv("DASHSCOPE_API_KEY") or os.getenv("AI_API_KEY", "")] *)
Definition AI_API_KEY : string :=
  match getenv "DASHSCOPE_API_KEY" with
  | Some (String c s) => String c s
  | _ => getenv_or "AI_API_KEY" ""
  end.
Definition AI_BASE_URL : string :=
  getenv_or "AI_BASE_URL"
            "https://dashscope.aliyuncs.com/compatible-mode/v1".
Definition AI_MODEL : string := getenv_or "AI_MODEL" "qwen-plus".

Definition SMTP_HOST : string := getenv_or "SMTP_HOST" "smtp.qq.com".
Definition SMTP_USER : string := getenv_or "SMTP_USER" "".
Definition SMTP_PASSWORD : string := getenv_or "SMTP_PASSWORD" "".
Definition EMAIL_TO : string := getenv_or "EMAIL_TO" "".

(** The one entry of [validate_config], in UTF-8. *)
Definition AI_KEY_ENTRY : string := "DASHSCOPE_API_KEY 或 AI_API_KEY".

(** [validate_config] *)
Definition validate_config : list string :=
  let missing := [] in
  let missing :=
    if negb (PyStr.truthy AI_API_KEY) then missing ++ [AI_KEY_ENTRY]
    else missing in
  missing.

(** [validate_email_config] *)
Definition validate_email_config : list string :=
  let missing := [] in
  let missing :=
    if negb (PyStr.truthy SMTP_USER) then missing ++ ["SMTP_USER"]
    else missing in
  let missing :=
    if negb (PyStr.truthy SMTP_PASSWORD) then missing ++ ["SMTP_PASSWORD"]
    else missing in
  let missing :=
    if negb (PyStr.truthy EMAIL_TO) then missing ++ ["EMAIL_TO"]
    else missing in
  missing.
End environment.
End config.

(** ** The mail sender ([skills/email_sender.py]) *)

Module mail.

(** [x or d] for an optional string and for an optional number. *)
Definition str_or (x : option string) (d : string) : string :=
  match x with
  | Some (String c s) => String c s
  | _ => d
  end.
Definition int_or (x : option Z) (d : Z) : Z :=
  match x with
  | Some z => if (z =? 0)%Z then d else z
  | None => d
  end.

(** The attributes of an [EmailSender]. *)
Record EmailSender : Type := mkEmailSender {
  host : string;
  port : Z;
  user : string;
  password : string;
  to_email : string
}.

(** [EmailSender.__init__], over the values of [config]. *)
Definition init (SMTP_HOST : string) (SMTP_PORT : Z)
    (SMTP_USER SMTP_PASSWORD EMAIL_TO : string)
    (host0 : option string) (port0 : option Z)
    (user0 password0 to_email0 : option string) : EmailSender :=
  {| host := str_or host0 SMTP_HOST;
     port := int_or port0 SMTP_PORT;
     user := str_or user0 SMTP_USER;
     password := str_or password0 SMTP_PASSWORD;
     to_email := str_or to_email0 EMAIL_TO |}.

(** [EmailSender.validate_config] *)
Definition validate_config (self : EmailSender) : list string :=
  let missing := [] in
  let missing :=
    if negb (PyStr.truthy (host self)) then missing ++ ["SMTP_HOST"]
    else missing in
  let missing :=
    if negb (PyStr.truthy (user self)) then missing ++ ["SMTP_USER"]
    else missing in
  let missing :=
    if negb (PyStr.truthy (password self)) then missing ++ ["SMTP_PASSWORD"]
    else missing in
  let missing :=
    if negb (PyStr.truthy (to_email self)) then missing ++ ["EMAIL_TO"]
    else missing in
  missing.

(** The body that [send] attaches. *)
Inductive body_part : Type :=
| Html (text : string)
| Plain (text : string).

(** What the body of the [try] in [send] asks of the mail libraries: the
    message and the session. [ssl] is [SMTP_SSL]; otherwise it is [SMTP]
    followed by [starttls]. *)
Record delivery : Type := mkDelivery {
  ssl : bool;
  smtp_host : string;
  smtp_port : Z;
  login_user : string;
  login_password : string;
  mail_from : string;
  mail_to : string;
  mail_subject : string;
  mail_body : body_part;
  attachment : option string
}.

(** How the body of the [try] ends: it reaches the end, or it raises one
    of the exceptions that [send] names, or another one. *)
Inductive try_result : Type :=
| Sent
| SMTPAuthenticationError
| SMTPConnectError
| OtherError (e : pyexc).

(** The lines that [send] prints. *)
Inductive mail_event : Type :=
| ConfigIncomplete (missing : list string)
| SendSucceeded (recipient : string)
| AuthenticationFailed
| ConnectFailed (smtp_host : string) (smtp_port : Z)
| SendFailed (e : pyexc).

Section send.
(** The file system and the mail libraries. *)
Variable path_exists : string → bool.
Variable deliver : delivery → try_result.

(** [EmailSender.send]. A path is a string here; [None] and the empty
    string are false where [send] tests [to_email] and [html_body]. *)
Definition send (self : EmailSender) (subject body : string)
    (attachment_path : option string) (to_email0 html_body : option string)
    : list mail_event * outcome bool :=
  let missing := validate_config self in
  match missing with
  | _ :: _ => ([ConfigIncomplete missing], Return false)
  | [] =>
      let recipient := str_or to_email0 (to_email self) in
      let request :=
        {| ssl := bool_decide (port self = 465%Z);
           smtp_host := host self;
           smtp_port := port self;
           login_user := user self;
           login_password := password self;
           mail_from := user self;
           mail_to := recipient;
           mail_subject := subject;
           mail_body := match html_body with
                        | Some (String c s) => Html (String c s)
                        | _ => Plain body
                        end;
           attachment := match attachment_path with
                         | Some p => if path_exists p then Some p else None
                         | None => None
                         end |} in
      match deliver request with
      | Sent => ([SendSucceeded recipient], Return true)
      | SMTPAuthenticationError => ([AuthenticationFailed], Return false)
      | SMTPConnectError =>
          ([ConnectFailed (host self) (port self)], Return false)
      | OtherError (PyException msg) =>
          ([SendFailed (PyException msg)], Return false)
      | OtherError Cancelled => ([], Raise Cancelled)
      end
  end.
End send.
End mail.

(** ** Parsing one entry of a feed ([sources/rss_feeds.py]) *)

Module rss.

(** [s[:n]] *)
Fixpoint str_take (n : nat) (s : string) : string :=
  match n, s with
  | S n', String c s' => String c (str_take n' s')
  | _, _ => EmptyString
  end.

(** What [_parse_entry] reads in an entry of [feedparser]. A field is
    [None] when the key is not in the entry; for the two parsed dates also
    when its value is false. [T] is the type of a parsed date. *)
Record Entry (T : Type) : Type := mkEntry {
  entry_title : option string;
  entry_link : option string;
  entry_summary : option string;
  entry_description : option string;
  entry_published_parsed : option T;
  entry_updated_parsed : option T;
  entry_author : option string;
  entry_tags : option (list string)
}.
Arguments mkEntry {T} _ _ _ _ _ _ _ _.
Arguments entry_title {T} e.
Arguments entry_link {T} e.
Arguments entry_summary {T} e.
Arguments entry_description {T} e.
Arguments entry_published_parsed {T} e.
Arguments entry_updated_parsed {T} e.
Arguments entry_author {T} e.
Arguments entry_tags {T} e.

Section parse_entry.
Variable T : Type.
(** [self.name] *)
Variable source_name : string.
(** [BeautifulSoup(summary, "lxml").get_text(strip=True)] *)
Variable get_text : string → outcome string.
(** [datetime( *t[:6]).isoformat()], [None] when it raises an
    [Exception]. *)
Variable isoformat : T → option string.

(** The [try] around one date: [pass] keeps the empty string. *)
Definition date_or_empty (t : T) : string := default "" (isoformat t).

(** [RSSSourceBase._parse_entry] *)
Definition _parse_entry (entry : Entry T) : outcome (option NewsItem) :=
  let title0 := PyStr.strip (default "" (entry_title entry)) in
  if negb (PyStr.truthy title0) then Return None
  else
    let link := default "" (entry_link entry) in
    let summary0 :=
      match entry_summary entry with
      | Some s => s
      | None => default "" (entry_description entry)
      end in
    let cleaned :=
      if PyStr.truthy summary0 then
        match get_text summary0 with
        | Return text => Return (str_take 500 text)
        | Raise e => Raise e
        end
      else Return summary0 in
    match cleaned with
    | Raise e => Raise e
    | Return summary1 =>
        let published_at0 :=
          match entry_published_parsed entry with
          | Some t => date_or_empty t
          | None =>
              match entry_updated_parsed entry with
              | Some t => date_or_empty t
              | None => ""
              end
          end in
        Return (Some (new_NewsItem (Some title0) link (Some summary1)
                        source_name published_at0 0
                        [("author", PStr (default "" (entry_author entry)));
                         ("tags",
                          PList (map PStr
                                     (default [] (entry_tags entry))))]))
    end.
End parse_entry.
End rss.

(** ** A small feed *)

Module Scenario3.
(** Two entries: one with a padded title and a summary, one without a
    title. *)
Definition entries : list (rss.Entry unit) :=
  [rss.mkEntry (Some "  Rocq 9.1 released ") (Some "https://a/1")
               (Some "<p>New release</p>") None (Some tt) None
               (Some "ann") (Some ["release"]);
   rss.mkEntry None (Some "https://a/2") None None None None None None].
Definition feed : outcome (http_response (list (rss.Entry unit))) :=
  Return (mkResponse 200 (Return entries)).
Definition get_text (s : string) : outcome string := Return "New release".
Definition isoformat (t : unit) : option string :=
  Some "2025-09-15T08:00:00".
End Scenario3.

(** ** The analyzer, as far as the commands see it
       ([skills/ai_analyzer.py]) *)

Module ai.

Record ProjectSuggestion : Type := mkProjectSuggestion {
  name : string;
  description : string;
  target_users : string;
  tech_stack : list string;
  difficulty : string;
  reason : string;
  priority : Z
}.

(** [AnalysisResult]. [summary] holds the value that [_parse_response]
    found under that key of the answer, which need not be a string; the
    other fields have the types that the dataclass declares. *)
Record AnalysisResult : Type := mkAnalysisResult {
  summary : pyval;
  trends : list string;
  opportunities : list string;
  project_suggestions : list ProjectSuggestion;
  raw_response : string
}.

(** The attributes that [AIAnalyzer.__init__] sets. [Client] is the type
    of the client of the service. *)
Record AIAnalyzer (Client : Type) : Type := mkAIAnalyzer {
  api_key : string;
  base_url : string;
  model : string;
  client : Client
}.
Arguments mkAIAnalyzer {Client} api_key base_url model client.
Arguments api_key {Client} a.
Arguments base_url {Client} a.
Arguments model {Client} a.
Arguments client {Client} a.

(** The message of the [ValueError], in UTF-8. *)
Definition NO_API_KEY : string :=
  "未配置 AI API Key，请设置 DASHSCOPE_API_KEY 环境变量".

(** [AIAnalyzer.__init__]: [ValueError] without a key, and then the client
    of the service, whose constructor [OpenAI] is a library. *)
Definition init {Client} (OpenAI : string → string → outcome Client)
    (AI_API_KEY AI_BASE_URL AI_MODEL : string)
    (api_key0 base_url0 model0 : option string)
    : outcome (AIAnalyzer Client) :=
  let api_key1 := mail.str_or api_key0 AI_API_KEY in
  let base_url1 := mail.str_or base_url0 AI_BASE_URL in
  let model1 := mail.str_or model0 AI_MODEL in
  if negb (PyStr.truthy api_key1) then Raise (PyException NO_API_KEY)
  else
    match OpenAI api_key1 base_url1 with
    | Raise e => Raise e
    | Return client1 =>
        Return {| api_key := api_key1; base_url := base_url1;
                  model := model1; client := client1 |}
    end.

(** The summary of the result for an empty list, in UTF-8. *)
Definition NOTHING_TO_ANALYZE : string := "没有可分析的新闻".

(** [AIAnalyzer.analyze]. [ask] stands for the rest of the method on a list
    that is not empty: the prompt, the call of the service and the parsing
    of its answer. *)
Definition analyze {Client}
    (ask : AIAnalyzer Client → list NewsItem → outcome AnalysisResult)
    (self : AIAnalyzer Client) (news_items : list NewsItem)
    : outcome AnalysisResult :=
  match news_items with
  | [] => Return {| summary := PStr NOTHING_TO_ANALYZE; trends := [];
                    opportunities := []; project_suggestions := [];
                    raw_response := "" |}
  | _ => ask self news_items
  end.
End ai.

(** ** The [run] command ([main.py]) *)

Module cli.

(** How the body of a command ends: it raises [typer.Exit(code)], it
    reaches its end, or it raises an exception that nothing catches. *)
Inductive ending : Type :=
| Exit (code : Z)
| Completed
| Uncaught (e : pyexc).

(** The lines that [run] prints, and those of [fetch_all] within it. The
    spinners are left out. *)
Inductive run_event : Type :=
| AIConfigIncomplete (missing : list string)
| CopyEnvHint
| EmailConfigIncomplete (missing : list string)
| Started
| Aggregator (ev : event)
| FetchCompleted (n : nat)
| NothingFetched
| AnalysisCompleted
| SummaryPreview (text : string)
| ReportGenerated (path : string)
| MailSentTo (recipient : string)
| MailNotSent
| AllDone.

Section run.
Variable environ : gmap string string.
Variable reg : Registry.
(** The constructor of the client of the service. *)
Variable Client : Type.
Variable OpenAI : string → string → outcome Client.
(** The service behind [AIAnalyzer.analyze]. *)
Variable ask :
  ai.AIAnalyzer Client → list NewsItem → outcome ai.AnalysisResult.
(** The message of the exception that [x[:200] + "..."] raises for a value
    [x] that is no string: a [TypeError], or for a dictionary on recent
    versions of Python a [KeyError]. *)
Variable preview_error : pyval → string.
(** [ReportGenerator()] followed by [generate_html] when the flag is set
    and by [generate] otherwise: the path of the report. *)
Variable render : bool → ai.AnalysisResult → list NewsItem → outcome string.
(** [EmailSender().send_report(report_path, summary)] *)
Variable send_report : string → string → outcome bool.

(** Step 4 of [run] and its end. [summary0] is [analysis.summary], which
    is a string once the preview was printed. *)
Definition run_mail (send_email dry_run : bool) (report_path : string)
    (summary0 : string) : list run_event * ending :=
  if send_email && negb dry_run then
    match send_report report_path (rss.str_take 200 summary0) with
    | Raise e => ([], Uncaught e)
    | Return true =>
        ([MailSentTo (config.EMAIL_TO environ); AllDone], Completed)
    | Return false => ([MailNotSent; AllDone], Completed)
    end
  else ([AllDone], Completed).

(** Steps 2 and 3 of [run], on the items fetched. The preview is
    [analysis.summary[:200] + "..."], which raises when the summary is no
    string, after the line that reports the analysis. *)
Definition run_report (send_email dry_run html_only : bool)
    (news_items : list NewsItem) : list run_event * ending :=
  match ai.init OpenAI (config.AI_API_KEY environ)
                (config.AI_BASE_URL environ) (config.AI_MODEL environ)
                None None None with
  | Raise e => ([], Uncaught e)
  | Return analyzer =>
      match ai.analyze ask analyzer news_items with
      | Raise e => ([], Uncaught e)
      | Return analysis =>
          match ai.summary analysis with
          | PStr summary0 =>
              let shown :=
                [AnalysisCompleted;
                 SummaryPreview
                   (rss.str_take 200 summary0 ++ "...")%string] in
              match render html_only analysis news_items with
              | Raise e => (shown, Uncaught e)
              | Return report_path =>
                  let '(log, e) :=
                    run_mail send_email dry_run report_path summary0 in
                  (shown ++ ReportGenerated report_path :: log, e)
              end
          | x => ([AnalysisCompleted], Uncaught (PyException (preview_error x)))
          end
      end
  end.

(** [run] *)
Definition run (send_email dry_run : bool) (limit : Z) (html_only : bool)
    : list run_event * ending :=
  let missing := config.validate_config environ in
  match missing with
  | _ :: _ => ([AIConfigIncomplete missing; CopyEnvHint], Exit 1)
  | [] =>
      let email_missing :=
        if send_email && negb dry_run
        then config.validate_email_config environ else [] in
      match email_missing with
      | _ :: _ => ([EmailConfigIncomplete email_missing], Exit 1)
      | [] =>
          match fetch_all reg limit with
          | (log, Raise e) => (Started :: map Aggregator log, Uncaught e)
          | (log, Return news_items) =>
              let fetched :=
                Started :: map Aggregator log
                ++ [FetchCompleted (length news_items)] in
              match news_items with
              | [] => (fetched ++ [NothingFetched], Exit 0)
              | _ =>
                  let '(log', e) :=
                    run_report send_email dry_run html_only news_items in
                  (fetched ++ log', e)
              end
          end
      end
  end.
End run.
Arguments run_report environ {Client} OpenAI ask preview_error render
  send_report send_email dry_run html_only news_items.
Arguments run environ reg {Client} OpenAI ask preview_error render
  send_report send_email dry_run limit html_only.
End cli.

(** ** A small run *)

Module Scenario4.
Definition environ : gmap string string := <["AI_API_KEY" := "k"]> ∅.
(** A client that is built, and messages for the preview. *)
Definition OpenAI (api_key base_url : string) : outcome unit := Return tt.
Definition preview_error (x : pyval) : string :=
  "object is not subscriptable".
(** A service that is out of quota, a renderer and a mailer that work. *)
Definition ask (a : ai.AIAnalyzer unit) (items : list NewsItem)
    : outcome ai.AnalysisResult := Raise (PyException "quota").
(** A service that answers. *)
Definition answer (a : ai.AIAnalyzer unit) (items : list NewsItem)
    : outcome ai.AnalysisResult :=
  Return (ai.mkAnalysisResult (PStr "a quiet week") [] [] [] "{}").
Definition render (html_only : bool) (r : ai.AnalysisResult)
    (items : list NewsItem) : outcome string := Return "report.html".
Definition send_report (path summary : string) : outcome bool := Return true.
End Scenario4.

(** * Properties *)

(** ** [str.strip] *)

Module PyStrFacts.
Import PyStr.

Lemma truthy_true s : truthy s = true ↔ s ≠ "".
Proof. destruct s; simpl; split; congruence. Qed.

Lemma truthy_false s : truthy s = false ↔ s = "".
Proof. destruct s; simpl; split; congruence. Qed.

Lemma lstrip_head s : head_space (lstrip s) = false.
Proof.
  induction s as [|c s IH]; simpl; [done|].
  destruct (isspace c) eqn:Hc; [done|]. by simpl.
Qed.

Lemma rstrip_cons c s :
  isspace c = false → ∃ r, rstrip (String c s) = String c r.
Proof. intros Hc. simpl. rewrite Hc. destruct (rstrip s); eauto. Qed.

Lemma rstrip_head s : head_space s = false → head_space (rstrip s) = false.
Proof.
  destruct s as [|c s]; [done|]. simpl. intros Hc.
  destruct (rstrip_cons c s Hc) as [r Hr]. simpl in Hr. by rewrite Hr.
Qed.

Lemma rstrip_last s : last_space (rstrip s) = false.
Proof.
  induction s as [|c s IH]; simpl; [done|].
  destruct (rstrip s) as [|d r] eqn:Hr.
  - destruct (isspace c) eqn:Hc; simpl; done.
  - exact IH.
Qed.

Lemma rstrip_idem s : rstrip (rstrip s) = rstrip s.
Proof.
  induction s as [|c s IH]; simpl; [done|].
  destruct (rstrip s) as [|d r] eqn:Hr.
  - destruct (isspace c) eqn:Hc; simpl; [done|]. by rewrite Hc.
  - change (rstrip (String c (String d r))) with
      (match rstrip (String d r) with
       | "" => if isspace c then "" else String c ""
       | r' => String c r'
       end).
    by rewrite IH.
Qed.

Lemma lstrip_fixed s : head_space s = false → lstrip s = s.
Proof. destruct s as [|c s]; simpl; [done|]. by intros ->. Qed.

Lemma strip_trimmed s : trimmed (strip s).
Proof.
  split; [|apply rstrip_last]. apply rstrip_head, lstrip_head.
Qed.

Lemma strip_idem s : strip (strip s) = strip s.
Proof.
  unfold strip. rewrite (lstrip_fixed (rstrip (lstrip s))).
  - apply rstrip_idem.
  - apply rstrip_head, lstrip_head.
Qed.

Lemma rstrip_fixed s : last_space s = false → rstrip s = s.
Proof.
  induction s as [|c s IH]; [done|].
  destruct s as [|d s'].
  - simpl. by intros ->.
  - intros H. specialize (IH H).
    change (rstrip (String c (String d s'))) with
      (match rstrip (String d s') with
       | "" => if isspace c then "" else String c ""
       | r' => String c r'
       end).
    by rewrite IH.
Qed.

(** [strip] leaves a trimmed string as it is. *)
Lemma strip_fixed s : trimmed s → strip s = s.
Proof.
  intros [Hh Hl]. unfold strip. rewrite (lstrip_fixed s Hh).
  by apply rstrip_fixed.
Qed.

(** [strip] removes whitespace only, and only at the two ends. *)
Lemma lstrip_split s :
  ∃ l, s = (l ++ lstrip s)%string ∧ all_space l = true.
Proof.
  induction s as [|c s (l & Hl & Hs)]; simpl.
  - by exists "".
  - destruct (isspace c) eqn:Hc.
    + exists (String c l). simpl. rewrite Hc, Hs. split; [|done].
      change (String c s = String c (l ++ lstrip s)%string). by f_equal.
    + by exists "".
Qed.

Lemma rstrip_split s :
  ∃ r, s = (rstrip s ++ r)%string ∧ all_space r = true.
Proof.
  induction s as [|c s (r & Hr & Hs)]; simpl.
  - by exists "".
  - destruct (rstrip s) as [|d t] eqn:Ht.
    + change (s = r) in Hr. subst r.
      destruct (isspace c) eqn:Hc.
      * exists (String c s). simpl. by rewrite Hc, Hs.
      * by exists s.
    + exists r. split; [|done].
      change (String c s = String c (String d t ++ r)%string). by f_equal.
Qed.

Lemma strip_split s :
  ∃ l r, s = (l ++ strip s ++ r)%string
         ∧ all_space l = true ∧ all_space r = true.
Proof.
  destruct (lstrip_split s) as (l & Hl & Hls).
  destruct (rstrip_split (lstrip s)) as (r & Hr & Hrs).
  exists l, r. unfold strip. by rewrite <- Hr.
Qed.

End PyStrFacts.

(** ** The item model *)

Lemma clean_strip s : clean (Some s) = PyStr.strip s.
Proof. by destruct s. Qed.

Lemma clean_trimmed x : PyStr.trimmed (clean x).
Proof.
  destruct x as [s|]; [|done]. rewrite clean_strip.
  apply PyStrFacts.strip_trimmed.
Qed.

Lemma clean_idem x : clean (Some (clean x)) = clean x.
Proof.
  destruct x as [s|]; [|done].
  rewrite !clean_strip. apply PyStrFacts.strip_idem.
Qed.

Lemma to_dict_keys (it : NewsItem) k :
  is_Some (to_dict it !! k) → k ∈ field_names.
Proof.
  unfold to_dict, field_names. intros [v Hv].
  repeat (apply lookup_insert_Some in Hv as [[<- _]|[_ Hv]];
          [set_solver|]).
  by rewrite lookup_empty in Hv.
Qed.

Lemma to_dict_no_unexpected (it : NewsItem) :
  List.find (λ k, negb (bool_decide (k ∈ field_names)))
            (map fst (map_to_list (to_dict it))) = None.
Proof.
  destruct (List.find _ _) as [k|] eqn:Hfind; [|done].
  apply find_some in Hfind as [Hin Hk].
  apply negb_true_iff, bool_decide_eq_false in Hk. destruct Hk.
  apply list_elem_of_In, list_elem_of_fmap in Hin as [[k' v] [-> Hin]].
  apply elem_of_map_to_list in Hin. apply (to_dict_keys it). by eexists.
Qed.

(** The round trip on any record whose [title] and [summary] are trimmed. *)
Lemma of_kwargs_to_dict (it : NewsItem) :
  PyStr.trimmed (title it) → PyStr.trimmed (summary it) →
  NewsItem_of_kwargs (to_dict it) = inr it.
Proof.
  intros Ht Hs. unfold NewsItem_of_kwargs.
  rewrite to_dict_no_unexpected.
  unfold required, defaulted, to_dict. simplify_map_eq. simpl.
  unfold new_NewsItem. rewrite !clean_strip.
  rewrite !PyStrFacts.strip_fixed by done. by destruct it.
Qed.

(** What the constructor makes of the keyword arguments it accepts. *)
Lemma of_kwargs_inv kw it :
  NewsItem_of_kwargs kw = inr it →
  ∃ t s,
    it = new_NewsItem t (url it) s (source it) (published_at it)
                      (score it) (extra it)
    ∧ required kw "title" as_opt_str = inr t
    ∧ required kw "url" as_str = inr (url it)
    ∧ defaulted kw "summary" as_opt_str (Some "") = inr s
    ∧ defaulted kw "source" as_str "" = inr (source it)
    ∧ defaulted kw "published_at" as_str "" = inr (published_at it)
    ∧ defaulted kw "score" as_int 0%Z = inr (score it)
    ∧ defaulted kw "extra" as_dict [] = inr (extra it).
Proof.
  unfold NewsItem_of_kwargs. destruct (List.find _ _); [done|].
  destruct (required kw "title" as_opt_str) as [|t]; [done|].
  destruct (required kw "url" as_str) as [|u]; [done|].
  destruct (defaulted kw "summary" as_opt_str (Some "")) as [|s]; [done|].
  destruct (defaulted kw "source" as_str "") as [|src]; [done|].
  destruct (defaulted kw "published_at" as_str "") as [|p]; [done|].
  destruct (defaulted kw "score" as_int 0%Z) as [|sc]; [done|].
  destruct (defaulted kw "extra" as_dict []) as [|e]; [done|].
  simpl. intros [= <-]. by exists t, s.
Qed.

(** An item that came out of the constructor survives the round trip. *)
Lemma of_kwargs_roundtrip kw it :
  NewsItem_of_kwargs kw = inr it → NewsItem_of_kwargs (to_dict it) = inr it.
Proof.
  intros (t & s & -> & _)%of_kwargs_inv.
  apply of_kwargs_to_dict; apply clean_trimmed.
Qed.

(** C6. Round-trip serialization: for every item that the constructor
    builds, whatever its arguments, [to_dict] followed by the constructor on
    the resulting record gives back an item equal to the original in all
    seven fields. *)
Theorem NewsItem_to_dict_roundtrip
    (t : option string) (u : string) (s : option string) (src p : string)
    (sc : Z) (e : pydict) :
  NewsItem_of_kwargs (to_dict (new_NewsItem t u s src p sc e))
  = inr (new_NewsItem t u s src p sc e).
Proof. apply of_kwargs_to_dict; apply clean_trimmed. Qed.

(** *** The constructor as Python runs it *)

Lemma clean_value_inv field x v :
  clean_value field x = inr v →
  v = PStr (match x with PStr s => PyStr.strip s | _ => "" end).
Proof.
  unfold clean_value. destruct x as [|[]|z|[|c s]|[|y l]|[|y d]]; simpl;
    try (intros [= <-]; reflexivity); try discriminate.
  destruct (negb (z =? 0)%Z); [discriminate|]. by intros [= <-].
Qed.

Lemma defaulted_as_value kw field dflt :
  defaulted kw field as_value dflt = inr (default dflt (kw !! field)).
Proof. unfold defaulted, as_value. by destruct (kw !! field). Qed.

(** What the constructor makes of the keyword arguments, whatever their
    types. *)
Lemma NewsItem_init_inv kw o :
  NewsItem_init kw = inr o →
  ∃ t,
    kw !! "title" = Some t
    ∧ clean_value "title" t = inr (obj_title o)
    ∧ kw !! "url" = Some (obj_url o)
    ∧ clean_value "summary" (default (PStr "") (kw !! "summary"))
      = inr (obj_summary o)
    ∧ obj_source o = default (PStr "") (kw !! "source")
    ∧ obj_published_at o = default (PStr "") (kw !! "published_at")
    ∧ obj_score o = default (PInt 0) (kw !! "score")
    ∧ obj_extra o = default (PDict []) (kw !! "extra").
Proof.
  unfold NewsItem_init. destruct (List.find _ _); [done|].
  rewrite !defaulted_as_value. unfold required, as_value.
  destruct (kw !! "title") as [t|] eqn:Et; [|done].
  destruct (kw !! "url") as [u|] eqn:Eu; [|done]. cbn [ebind].
  destruct (clean_value "title" t) as [|t'] eqn:Ht; [done|]. cbn [ebind].
  destruct (clean_value "summary" _) as [|s'] eqn:Hs; [done|]. cbn [ebind].
  intros [= <-]. exists t. simpl. by repeat split.
Qed.

(** The typed constructor is the constructor of Python on arguments of the
    declared types: the item that it builds stands for the instance that
    Python builds. *)
Lemma NewsItem_of_kwargs_refines kw it :
  NewsItem_of_kwargs kw = inr it → NewsItem_init kw = inr (object_of it).
Proof.
  intros Hit.
  destruct (of_kwargs_inv kw it Hit)
    as (t & s & Eit & Ht & Hu & Hs & Hsrc & Hp & Hsc & He).
  assert (∀ (x : option string) f f' v,
            as_opt_str f v = inr x →
            clean_value f' v = inr (PStr (clean x))) as Hclean.
  { intros x f f' [] [= <-]; try done. unfold clean_value, clean. simpl.
    by destruct (PyStr.truthy _). }
  assert (title it = clean t ∧ summary it = clean s) as [Et Es].
  { by rewrite Eit. }
  unfold NewsItem_of_kwargs in Hit. unfold NewsItem_init.
  destruct (List.find _ _); [done|]. clear Hit.
  rewrite !defaulted_as_value.
  unfold required, defaulted, as_value in *.
  destruct (kw !! "title") as [vt|]; [|done].
  destruct (kw !! "url") as [[]|]; try done. injection Hu as Hu.
  cbn [ebind]. rewrite (Hclean t "title" "title" vt Ht). cbn [ebind].
  assert (clean_value "summary" (default (PStr "") (kw !! "summary"))
          = inr (PStr (clean s))) as ->.
  { destruct (kw !! "summary") as [vs|]; simpl.
    - by apply (Hclean s "summary").
    - by injection Hs as <-. }
  assert (default (PStr "") (kw !! "source") = PStr (source it)) as ->.
  { destruct (kw !! "source") as [[]|]; simpl in *; congruence. }
  assert (default (PStr "") (kw !! "published_at")
          = PStr (published_at it)) as ->.
  { destruct (kw !! "published_at") as [[]|]; simpl in *; congruence. }
  assert (default (PInt 0) (kw !! "score") = PInt (score it)) as ->.
  { destruct (kw !! "score") as [[]|]; simpl in *; congruence. }
  assert (default (PDict []) (kw !! "extra") = PDict (extra it)) as ->.
  { destruct (kw !! "extra") as [[]|]; simpl in *; congruence. }
  cbn [ebind]. unfold object_of. by rewrite Et, Es, Hu.
Qed.

(** [to_dict] on a typed item is [to_dict] on the instance that it stands
    for. *)
Lemma object_to_dict_of (it : NewsItem) :
  object_to_dict (object_of it) = to_dict it.
Proof. reflexivity. Qed.

Lemma object_to_dict_no_unexpected (o : NewsItemObject) :
  List.find (λ k, negb (bool_decide (k ∈ field_names)))
            (map fst (map_to_list (object_to_dict o))) = None.
Proof.
  destruct (List.find _ _) as [k|] eqn:Hfind; [|done].
  apply find_some in Hfind as [Hin Hk].
  apply negb_true_iff, bool_decide_eq_false in Hk. destruct Hk.
  apply list_elem_of_In, list_elem_of_fmap in Hin as [[k' v] [-> Hin]].
  apply elem_of_map_to_list in Hin. unfold object_to_dict in Hin.
  unfold field_names. simpl.
  repeat (apply lookup_insert_Some in Hin as [[<- _]|[_ Hin]];
          [set_solver|]).
  by rewrite lookup_empty in Hin.
Qed.

Lemma clean_value_trimmed field s :
  PyStr.trimmed s → clean_value field (PStr s) = inr (PStr s).
Proof.
  intros Hs. unfold clean_value. simpl. destruct s as [|c s]; [done|].
  simpl. by rewrite PyStrFacts.strip_fixed.
Qed.

(** The round trip holds for the instances of Python as well, whatever
    the types of their values. *)
Lemma NewsItem_init_roundtrip kw o :
  NewsItem_init kw = inr o → NewsItem_init (object_to_dict o) = inr o.
Proof.
  intros (t & _ & Hct & _ & Hcs & _)%NewsItem_init_inv.
  apply clean_value_inv in Hct, Hcs.
  assert (∀ x, PyStr.trimmed (match x with
                              | PStr y => PyStr.strip y | _ => "" end))
    as Htrim.
  { intros []; try done. apply PyStrFacts.strip_trimmed. }
  unfold NewsItem_init. rewrite object_to_dict_no_unexpected.
  rewrite !defaulted_as_value. unfold required, as_value, object_to_dict.
  simplify_map_eq. cbn [ebind default].
  rewrite Hct, Hcs, !clean_value_trimmed by apply Htrim. cbn [ebind].
  destruct o. simpl in *. by rewrite Hct, Hcs.
Qed.

(** C9. Construction invariant, as Python runs the dataclass: an instance
    built from keyword arguments has all seven attributes. [title] and [url]
    have no default: both arguments were passed. [title] and [summary] are
    strings, the arguments stripped of surrounding whitespace, and the empty
    string for [None] and for every other false value, so they are trimmed.
    [url] holds the argument as it was passed, and each of [source],
    [published_at], [score] and [extra] holds the argument as it was passed
    or, when there is none, its default: the empty string, [0] or the empty
    dictionary. So an attribute is [None] exactly when it is one of these
    five and [None] was passed for it. *)
Theorem NewsItem_construction_invariant
    (kw : gmap string pyval) (o : NewsItemObject) :
  NewsItem_init kw = inr o →
  (∃ t, kw !! "title" = Some t
        ∧ obj_title o
          = PStr (match t with PStr x => PyStr.strip x | _ => "" end))
  ∧ obj_summary o = PStr (match kw !! "summary" with
                          | Some (PStr x) => PyStr.strip x | _ => "" end)
  ∧ (∃ t s, obj_title o = PStr t ∧ obj_summary o = PStr s
            ∧ PyStr.trimmed t ∧ PyStr.trimmed s)
  ∧ kw !! "url" = Some (obj_url o)
  ∧ obj_source o = default (PStr "") (kw !! "source")
  ∧ obj_published_at o = default (PStr "") (kw !! "published_at")
  ∧ obj_score o = default (PInt 0) (kw !! "score")
  ∧ obj_extra o = default (PDict []) (kw !! "extra")
  ∧ (∀ k, (k, PNone) ∈ attributes o
          ↔ k ∈ ["url"; "source"; "published_at"; "score"; "extra"]
            ∧ kw !! k = Some PNone).
Proof.
  intros (t & Ht & Hct & Hu & Hcs & Hsrc & Hp & Hsc & He)%NewsItem_init_inv.
  apply clean_value_inv in Hct, Hcs.
  assert (obj_summary o
          = PStr (match kw !! "summary" with
                  | Some (PStr x) => PyStr.strip x | _ => "" end)) as Hs.
  { rewrite Hcs. by destruct (kw !! "summary") as [[]|]. }
  assert (∀ x, PyStr.trimmed (match x with
                              | PStr y => PyStr.strip y | _ => "" end))
    as Htrim.
  { intros []; try done. apply PyStrFacts.strip_trimmed. }
  split; [by exists t|]. split; [exact Hs|].
  split.
  { eexists _, _. split; [exact Hct|]. split; [exact Hcs|].
    split; apply Htrim. }
  do 5 (split; [done|]).
  intros k. unfold attributes. rewrite Hct, Hcs, Hsrc, Hp, Hsc, He.
  rewrite !elem_of_cons, !elem_of_nil. split.
  - intros [H|[H|[H|[H|[H|[H|[H|[]]]]]]]]; injection H as -> Hn;
      try discriminate Hn.
    + rewrite Hu, <- Hn.
      split; [repeat first [left; reflexivity|right]|done].
    + destruct (kw !! "source") as [v|]; simpl in Hn; [subst v|done].
      split; [repeat first [left; reflexivity|right]|done].
    + destruct (kw !! "published_at") as [v|]; simpl in Hn; [subst v|done].
      split; [repeat first [left; reflexivity|right]|done].
    + destruct (kw !! "score") as [v|]; simpl in Hn; [subst v|done].
      split; [repeat first [left; reflexivity|right]|done].
    + destruct (kw !! "extra") as [v|]; simpl in Hn; [subst v|done].
      split; [repeat first [left; reflexivity|right]|done].
  - intros [[->|[->|[->|[->|[->|[]]]]]] Hk].
    + right; left. f_equal. rewrite Hk in Hu. by injection Hu.
    + do 3 right; left. by rewrite Hk.
    + do 4 right; left. by rewrite Hk.
    + do 5 right; left. by rewrite Hk.
    + do 6 right; left. by rewrite Hk.
Qed.

Lemma NewsItem_construction_invariant_witness :
  let kw : gmap string pyval :=
    <["title" := PStr "  Show HN  "]> (<["url" := PStr "https://a"]> ∅) in
  let o := mkNewsItemObject (PStr "Show HN") (PStr "https://a") (PStr "")
             (PStr "") (PStr "") (PInt 0) (PDict []) in
  NewsItem_init kw = inr o
  ∧ kw !! "url" = Some (obj_url o)
  ∧ obj_source o = default (PStr "") (kw !! "source").
Proof.
  intros kw o.
  assert (NewsItem_init kw = inr o) as H by reflexivity.
  split; [exact H|].
  pose proof (NewsItem_construction_invariant kw o H)
    as (_ & _ & _ & Hu & Hsrc & _).
  split; [exact Hu|exact Hsrc].
Defined.

(** C9, as stated, fails: the constructor stores [None] when [None] is
    passed for [url], and the instance that it builds has a null field. *)
Lemma NewsItem_url_may_be_None :
  let kw : gmap string pyval :=
    <["title" := PStr "t"]> (<["url" := PNone]> ∅) in
  let o := mkNewsItemObject (PStr "t") PNone (PStr "") (PStr "") (PStr "")
             (PInt 0) (PDict []) in
  NewsItem_init kw = inr o
  ∧ obj_url o = PNone
  ∧ ¬ (∀ kw' o', NewsItem_init kw' = inr o' →
         ∀ k v, (k, v) ∈ attributes o' → v ≠ PNone).
Proof.
  intros kw o.
  assert (NewsItem_init kw = inr o) as E by (vm_compute; reflexivity).
  split; [exact E|]. split; [reflexivity|]. intros H.
  apply (H kw o E "url" PNone); [|reflexivity].
  unfold attributes. apply list_elem_of_further, list_elem_of_here.
Qed.

(** [title] and [url] have no default: a call that leaves one of them out
    raises instead of building an instance; and a true value without
    [strip] as [title] makes [__post_init__] raise. *)
Lemma NewsItem_required_arguments :
  NewsItem_init (<["title" := PStr "Show HN"]> ∅)
  = inl (MissingArgument "url")
  ∧ NewsItem_init (<["url" := PStr "https://a"]> ∅)
    = inl (MissingArgument "title")
  ∧ NewsItem_init (<["title" := PInt 7]> (<["url" := PStr "https://a"]> ∅))
    = inl (NoStrip "title").
Proof. repeat split; vm_compute; reflexivity. Qed.

(** ** The URL-dedup step *)

Section dedup_facts.
Implicit Types (l : list NewsItem) (x : NewsItem) (seen : gset string).

(** The test of the loop. *)
Lemma kept_iff x seen :
  PyStr.truthy (url x) && negb (bool_decide (url x ∈ seen)) = true
  ↔ url x ≠ "" ∧ url x ∉ seen.
Proof.
  rewrite andb_true_iff, negb_true_iff, bool_decide_eq_false.
  by rewrite PyStrFacts.truthy_true.
Qed.

Lemma dedup_loop_cons x l seen acc :
  dedup_loop (x :: l) seen acc
  = if decide (url x ≠ "" ∧ url x ∉ seen)
    then dedup_loop l (seen ∪ {[url x]}) (acc ++ [x])
    else dedup_loop l seen acc.
Proof.
  simpl. destruct (_ && _) eqn:E.
  - apply kept_iff in E. by rewrite decide_True.
  - rewrite decide_False; [done|]. intros H%kept_iff. congruence.
Qed.

(** The items already kept are a prefix of the result. *)
Lemma dedup_loop_acc l seen acc :
  dedup_loop l seen acc = acc ++ dedup_loop l seen [].
Proof.
  revert seen acc. induction l as [|x l IH]; intros seen acc.
  - simpl. by rewrite app_nil_r.
  - rewrite !dedup_loop_cons. case_decide; [|apply IH].
    rewrite (IH _ (acc ++ [x])), (IH _ ([] ++ [x])).
    by rewrite <- app_assoc.
Qed.

(** One more item at the end of the scan: it is appended when its url is
    not empty and was not seen before. *)
Lemma dedup_loop_snoc l x seen acc :
  dedup_loop (l ++ [x]) seen acc
  = dedup_loop l seen acc
    ++ (if decide (url x ≠ "" ∧ (url x ∉ seen) ∧ url x ∉ (url <$> l))
        then [x] else []).
Proof.
  revert seen acc. induction l as [|y l IH]; intros seen acc.
  - simpl app at 1. rewrite dedup_loop_cons. simpl.
    destruct (decide (url x ≠ "" ∧ url x ∉ seen)) as [H|H].
    + rewrite decide_True; [done|]. rewrite elem_of_nil. tauto.
    + rewrite decide_False; [by rewrite app_nil_r|]. tauto.
  - simpl app at 1. rewrite !dedup_loop_cons.
    destruct (decide (url y ≠ "" ∧ url y ∉ seen)) as [Hy|Hy];
      rewrite IH; f_equal; apply decide_ext; rewrite fmap_cons, elem_of_cons.
    + rewrite elem_of_union, elem_of_singleton. tauto.
    + split; [|tauto]. intros (Hx & Hs & Hl). repeat split; try done.
      intros [E|?]; [|done]. apply Hy. rewrite <- E. done.
Qed.

Lemma dedup_loop_sublist l seen : dedup_loop l seen [] `sublist_of` l.
Proof.
  revert seen. induction l as [|x l IH]; intros seen; [done|].
  rewrite dedup_loop_cons. case_decide.
  - rewrite dedup_loop_acc. simpl. by apply sublist_skip.
  - by apply sublist_cons.
Qed.

Lemma dedup_loop_idem l seen :
  dedup_loop (dedup_loop l seen []) seen [] = dedup_loop l seen [].
Proof.
  revert seen. induction l as [|x l IH]; intros seen; [done|].
  rewrite dedup_loop_cons. case_decide as Hx; [|apply IH].
  rewrite (dedup_loop_acc l _ ([] ++ [x])). simpl app.
  rewrite dedup_loop_cons, decide_True by done.
  rewrite (dedup_loop_acc _ _ ([] ++ [x])). simpl app. by rewrite IH.
Qed.

Lemma dedup_nil : dedup [] = [].
Proof. done. Qed.

Lemma dedup_snoc l x :
  dedup (l ++ [x])
  = dedup l ++ (if decide (url x ≠ "" ∧ url x ∉ (url <$> l))
                then [x] else []).
Proof.
  unfold dedup. rewrite dedup_loop_snoc. f_equal.
  apply decide_ext. pose proof (not_elem_of_empty (C:=gset string) (url x)).
  tauto.
Qed.

Lemma dedup_sublist l : dedup l `sublist_of` l.
Proof. apply dedup_loop_sublist. Qed.

Lemma dedup_elem_of l x : x ∈ dedup l → x ∈ l.
Proof. intros Hx. exact (elem_of_sublist _ _ _ Hx (dedup_sublist l)). Qed.

Lemma dedup_url_nonempty l x : x ∈ dedup l → url x ≠ "".
Proof.
  induction l as [|y l IH] using rev_ind; [by intros ?%elem_of_nil|].
  rewrite dedup_snoc, elem_of_app. intros [?|Hx]; [auto|].
  case_decide as Hy; [|by apply elem_of_nil in Hx].
  apply list_elem_of_singleton in Hx as ->. tauto.
Qed.

Lemma dedup_NoDup l : NoDup (url <$> dedup l).
Proof.
  induction l as [|y l IH] using rev_ind; [constructor|].
  rewrite dedup_snoc, fmap_app. apply NoDup_app. split; [done|].
  case_decide as Hy; simpl;
    [|split; [by intros ?? ?%elem_of_nil|constructor]].
  split; [|apply NoDup_singleton].
  intros u Hu ->%list_elem_of_singleton. destruct Hy as [_ Hy]. apply Hy.
  apply list_elem_of_fmap in Hu as (z & -> & Hz).
  apply list_elem_of_fmap. exists z. split; [done|].
  by apply dedup_elem_of.
Qed.

Lemma dedup_urls l u :
  u ∈ url <$> dedup l ↔ u ≠ "" ∧ u ∈ url <$> l.
Proof.
  induction l as [|y l IH] using rev_ind.
  { simpl. rewrite elem_of_nil. tauto. }
  rewrite dedup_snoc, !fmap_app, !elem_of_app, IH.
  case_decide as Hy; simpl; rewrite ?list_elem_of_singleton, ?elem_of_nil.
  - split; [intros [[??]| ->]; tauto|tauto].
  - split; [tauto|]. intros [Hu [?| ->]]; [tauto|].
    left. split; [done|].
    destruct (decide (url y ∈ url <$> l)); [done|]. tauto.
Qed.
End dedup_facts.

(** C1. URL-deduplication, as the code does it: scanning in order, an item
    is appended to the output exactly when its url is not empty and no
    earlier item of the scan has the same url. So the output is a
    subsequence of the input in which every non-empty url of the input
    occurs once, at its first occurrence, and in which no item with an empty
    url is left. *)
Theorem dedup_first_occurrence :
  dedup [] = []
  ∧ (∀ l x, dedup (l ++ [x])
            = dedup l ++ (if decide (url x ≠ "" ∧ url x ∉ (url <$> l))
                          then [x] else []))
  ∧ (∀ l, dedup l `sublist_of` l)
  ∧ (∀ l, NoDup (url <$> dedup l))
  ∧ (∀ l u, u ∈ url <$> dedup l ↔ u ≠ "" ∧ u ∈ url <$> l)
  ∧ (∀ l x, url x = "" → x ∉ dedup l).
Proof.
  split; [apply dedup_nil|]. split; [apply dedup_snoc|].
  split; [apply dedup_sublist|]. split; [apply dedup_NoDup|].
  split; [apply dedup_urls|].
  intros l x Hx Hin. by apply dedup_url_nonempty in Hin.
Qed.

(** C1, as stated, fails: an item whose url is empty is not kept. *)
Lemma dedup_drops_empty_url :
  let item := mkNewsItem "A post without a link" "" "" "V2EX" "" 0 [] in
  dedup [item] = []
  ∧ ¬ (∀ l x, x ∈ l → url x = "" → x ∈ dedup l).
Proof.
  intros item. split; [reflexivity|].
  intros H. specialize (H [item] item).
  assert (item ∈ dedup [item]) as Hin.
  { apply H; [apply list_elem_of_here|reflexivity]. }
  change (dedup [item]) with (@nil NewsItem) in Hin.
  by apply elem_of_nil in Hin.
Qed.

(** C8. Dedup idempotence: the dedup step applied to its own output gives
    that output back. *)
Theorem dedup_idempotent (l : list NewsItem) : dedup (dedup l) = dedup l.
Proof. apply dedup_loop_idem. Qed.

(** ** The registry *)

Section registry_facts.
Context {V : Type}.
Implicit Types (d : list (string * V)) (k : string) (v : V).

Lemma dict_get_None d k : dict_get k d = None ↔ k ∉ d.*1.
Proof.
  induction d as [|[k' v'] d IH]; simpl.
  - rewrite elem_of_nil. tauto.
  - rewrite elem_of_cons. case_decide as Hk.
    + split; [done|]. intros []. by left.
    + rewrite IH. split.
      * intros ? [?|?]; [congruence|done].
      * intros H ?. apply H. by right.
Qed.

Lemma dict_get_elem_of d k v : dict_get k d = Some v → (k, v) ∈ d.
Proof.
  induction d as [|[k' v'] d IH]; simpl; [done|].
  case_decide; [intros [= ->]; subst; apply list_elem_of_here|].
  intros ?. by apply list_elem_of_further, IH.
Qed.

Lemma dict_get_set d k v : dict_get k (dict_set k v d) = Some v.
Proof.
  induction d as [|[k' v'] d IH]; simpl.
  - by rewrite decide_True.
  - case_decide; simpl; [by rewrite decide_True|].
    by rewrite decide_False.
Qed.

Lemma dict_set_keys d k v :
  (dict_set k v d).*1 = if decide (k ∈ d.*1) then d.*1 else d.*1 ++ [k].
Proof.
  induction d as [|[k' v'] d IH]; [done|].
  cbn [dict_set]. destruct (decide (k' = k)) as [->|Hk];
    rewrite !fmap_cons; cbn [fst].
  - rewrite decide_True; [done|apply list_elem_of_here].
  - rewrite IH. destruct (decide (k ∈ d.*1)) as [Hin|Hin].
    + rewrite decide_True; [done|by apply list_elem_of_further].
    + rewrite decide_False; [done|].
      intros [->|?]%elem_of_cons; done.
Qed.

(** In a dictionary a key looks up to the value that stands with it. *)
Lemma dict_get_Some_wf d k v :
  NoDup d.*1 → (dict_get k d = Some v ↔ (k, v) ∈ d).
Proof.
  intros Hwf. split; [apply dict_get_elem_of|].
  induction d as [|[k0 v0] d IH]; [by intros ?%elem_of_nil|].
  rewrite fmap_cons in Hwf. apply NoDup_cons in Hwf as [Hk0 Hwf].
  intros [[= <- <-]|Hin]%elem_of_cons; simpl.
  - by rewrite decide_True.
  - rewrite decide_False; [by apply IH|].
    intros ->. apply Hk0. apply list_elem_of_fmap. by exists (k, v).
Qed.
End registry_facts.

Lemma register_source_wf cls reg :
  wf_registry reg → wf_registry (register_source cls reg).
Proof.
  unfold wf_registry, register_source. intros Hwf.
  rewrite dict_set_keys. case_decide as Hin; [done|].
  apply NoDup_app. split; [done|].
  split; [|apply NoDup_singleton].
  by intros k Hk ->%list_elem_of_singleton.
Qed.

Lemma registry_of_wf classes : wf_registry (registry_of classes).
Proof.
  unfold registry_of.
  assert (wf_registry []) as Hnil by constructor.
  revert Hnil. generalize (@nil (string * NewsSource)) as reg.
  induction classes as [|cls classes IH]; intros reg Hwf; [done|].
  simpl. apply IH. by apply register_source_wf.
Qed.

Lemma elem_of_get_enabled_sources reg n cls :
  (n, cls) ∈ get_enabled_sources reg ↔ (n, cls) ∈ reg ∧ enabled cls = true.
Proof.
  unfold get_enabled_sources.
  rewrite !list_elem_of_In, filter_In. done.
Qed.

Lemma get_enabled_sources_sublist reg :
  get_enabled_sources reg `sublist_of` reg.
Proof.
  induction reg as [|[n cls] reg IH]; simpl; [done|].
  destruct (enabled cls); by constructor.
Qed.

Lemma get_enabled_sources_wf reg :
  wf_registry reg → wf_registry (get_enabled_sources reg).
Proof.
  unfold wf_registry. intros Hwf.
  apply (sublist_NoDup _ reg.*1); [exact Hwf|].
  apply (fmap_sublist fst), get_enabled_sources_sublist.
Qed.

Lemma get_source_enabled_wf reg n cls :
  wf_registry reg →
  get_source (get_enabled_sources reg) n = Some cls
  ↔ get_source reg n = Some cls ∧ enabled cls = true.
Proof.
  intros Hwf. unfold get_source.
  rewrite !dict_get_Some_wf by (done || by apply get_enabled_sources_wf).
  apply elem_of_get_enabled_sources.
Qed.

(** ** The aggregator *)

Section aggregator_facts.
Variable limit : Z.

Lemma gather_eq {A} (tasks : list (M A)) :
  gather tasks = (flat_map printed tasks, Return (map result tasks)).
Proof.
  induction tasks as [|[log r] tasks IH]; simpl; [done|].
  by rewrite IH.
Qed.

Lemma gather_await {A B} (f : A → outcome B) (l : list A) :
  gather (map (λ a, await (f a)) l) = ([], Return (map f l)).
Proof.
  rewrite gather_eq. f_equal.
  - induction l; simpl; done.
  - f_equal. rewrite map_map. done.
Qed.

Lemma aggregate_eq (insts rest : list NewsSource) i acc :
  drop i insts = rest →
  aggregate insts i (map (λ src, fetch src limit) rest) acc
  = (flat_map (failure_report limit) rest,
     Return (acc ++ flat_map (contribution limit) rest)).
Proof.
  revert i acc. induction rest as [|src rest IH]; intros i acc Hdrop.
  - simpl. by rewrite app_nil_r.
  - assert (insts !! i = Some src) as Hi.
    { rewrite <- (Nat.add_0_r i), <- lookup_drop, Hdrop. done. }
    assert (drop (S i) insts = rest) as Hrest.
    { rewrite (drop_S _ _ _ Hi) in Hdrop. by injection Hdrop. }
    simpl. unfold failure_report at 1, contribution at 1.
    destruct (fetch src limit) as [[items|]|[msg|]]; simpl.
    + rewrite (IH _ _ Hrest). by rewrite <- app_assoc.
    + by rewrite (IH _ _ Hrest).
    + rewrite Hi. unfold bind, print. by rewrite (IH _ _ Hrest).
    + by rewrite (IH _ _ Hrest).
Qed.

Lemma contributions_concat (srcs : list NewsSource) lists :
  Forall2 (λ src items, fetch src limit = Return (FList items)) srcs lists →
  flat_map (contribution limit) srcs = concat lists.
Proof.
  induction 1 as [|src items srcs lists Hsrc _ IH]; simpl; [done|].
  unfold contribution at 1. by rewrite Hsrc, IH.
Qed.

(** [fetch_all] in closed form. *)
Lemma fetch_all_eq reg :
  fetch_all reg limit
  = match get_enabled_sources reg with
    | [] => ([NoEnabledSource], Return [])
    | sources =>
        (flat_map (failure_report limit) sources.*2,
         Return (dedup (flat_map (contribution limit) sources.*2)))
    end.
Proof.
  unfold fetch_all. destruct (get_enabled_sources reg) as [|p sources] eqn:E.
  - done.
  - rewrite gather_await. unfold bind at 1. simpl app.
    rewrite (aggregate_eq _ _ 0 []) by done.
    unfold bind, ret. simpl. by rewrite app_nil_r.
Qed.

Lemma extend_lists_eq reg names acc :
  extend_lists (map (λ n, result (fetch_source reg n limit)) names) acc
  = acc ++ flat_map (named_contribution reg limit) names.
Proof.
  revert acc. induction names as [|n names IH]; intros acc; simpl.
  - by rewrite app_nil_r.
  - unfold named_contribution at 1.
    destruct (result (fetch_source reg n limit)) as [[items|]|e]; simpl.
    + rewrite IH. by rewrite <- app_assoc.
    + apply IH.
    + apply IH.
Qed.

(** [fetch_sources] in closed form. *)
Lemma fetch_sources_eq reg names :
  fetch_sources reg names limit
  = (flat_map (λ n, printed (fetch_source reg n limit)) names,
     Return (dedup (flat_map (named_contribution reg limit) names))).
Proof.
  unfold fetch_sources. rewrite gather_eq. unfold bind, ret.
  rewrite app_nil_r, !map_map, extend_lists_eq. f_equal.
  induction names; simpl; [done|]. by f_equal.
Qed.
End aggregator_facts.

(** The scenario of two enabled sources that share a url and a disabled
    third: three items in the order [u1], [u2], [u3], the one of [u2] from
    the first source, and nothing from the disabled source. *)
Example fetch_all_scenario :
  fetch_all Scenario.registry 10
  = ([], Return [Scenario.item "a1" "u1" "A"; Scenario.item "a2" "u2" "A";
                 Scenario.item "b3" "u3" "B"]).
Proof. vm_compute. reflexivity. Qed.

(** C2. Failure isolation: when the [fetch] of one enabled source raises,
    [fetch_all] returns, without raising, the dedup of what the other
    enabled sources contribute, in registry order; when these all return
    lists, that is the dedup of the concatenation of their lists. A failure
    that is an [Exception] is printed with the name of the source. *)
Theorem fetch_all_failure_isolation
    (reg : Registry) (limit : Z) (pre post : Registry) (k : string)
    (cls : NewsSource) (e : pyexc) :
  get_enabled_sources reg = pre ++ (k, cls) :: post →
  fetch cls limit = Raise e →
  result (fetch_all reg limit)
  = Return (dedup (flat_map (contribution limit) (pre ++ post).*2))
  ∧ (∀ lists,
       Forall2 (λ src items, fetch src limit = Return (FList items))
               (pre ++ post).*2 lists →
       result (fetch_all reg limit) = Return (dedup (concat lists)))
  ∧ (∀ msg, e = PyException msg →
       FetchFailed (name cls) e ∈ printed (fetch_all reg limit)).
Proof.
  intros Hen Hfail.
  assert (contribution limit cls = []) as Hc.
  { unfold contribution. by rewrite Hfail. }
  assert (result (fetch_all reg limit)
          = Return (dedup (flat_map (contribution limit) (pre ++ post).*2)))
    as Hres.
  { rewrite fetch_all_eq, Hen.
    destruct (pre ++ (k, cls) :: post) eqn:E; [by destruct pre|].
    rewrite <- E. simpl.
    by rewrite !fmap_app, fmap_cons, !flat_map_app; simpl; rewrite Hc. }
  split; [exact Hres|]. split.
  - intros lists Hall. rewrite Hres. do 2 f_equal.
    by apply contributions_concat.
  - intros msg ->. rewrite fetch_all_eq, Hen.
    destruct (pre ++ (k, cls) :: post) eqn:E; [by destruct pre|].
    rewrite <- E. unfold printed. simpl.
    rewrite fmap_app, fmap_cons, flat_map_app. simpl.
    apply elem_of_app. right. unfold failure_report at 1. rewrite Hfail.
    apply list_elem_of_here.
Qed.

Lemma fetch_all_failure_isolation_witness :
  get_enabled_sources Scenario.failing_registry
  = [("A", Scenario.A)] ++ ("F", Scenario.F) :: [("B", Scenario.B)]
  ∧ fetch Scenario.F 10 = Raise (PyException "timeout")
  ∧ result (fetch_all Scenario.failing_registry 10)
    = Return (dedup (flat_map (contribution 10) [Scenario.A; Scenario.B])).
Proof.
  split; [reflexivity|]. split; [reflexivity|].
  exact (proj1 (fetch_all_failure_isolation Scenario.failing_registry 10
                  [("A", Scenario.A)] [("B", Scenario.B)] "F" Scenario.F
                  (PyException "timeout") eq_refl eq_refl)).
Defined.

(** C3. Explicit override: when the registry holds the name [X] with a
    class whose [enabled] is false, that class is not among the enabled
    sources, which are all that [fetch_all] reads, and [fetch_source] finds
    it all the same: it prints no not-found line, and it gives what the
    [fetch] of that class gives: the items, when it returns items. Every
    registry built by registrations is well formed ([registry_of_wf]). *)
Theorem fetch_source_ignores_enabled
    (reg : Registry) (X : string) (cls : NewsSource) (limit : Z) :
  wf_registry reg →
  (X, cls) ∈ reg →
  enabled cls = false →
  get_source (get_enabled_sources reg) X = None
  ∧ get_source reg X = Some cls
  ∧ result (fetch_source reg X limit) = fetch cls limit
  ∧ (∀ n, SourceNotFound n ∉ printed (fetch_source reg X limit))
  ∧ (∀ items, fetch cls limit = Return (FList items) →
       result (fetch_source reg X limit) = Return (FList items)).
Proof.
  intros Hwf Hin Hoff.
  assert (get_source reg X = Some cls) as Hget.
  { by apply dict_get_Some_wf. }
  split.
  { destruct (get_source (get_enabled_sources reg) X) as [cls'|] eqn:E;
      [|done].
    apply get_source_enabled_wf in E as [E Hon]; [|done].
    rewrite Hget in E. injection E as <-. congruence. }
  split; [exact Hget|].
  unfold fetch_source. rewrite Hget.
  split; [done|]. split; [by intros n ?%elem_of_nil|]. by intros items ->.
Qed.

Lemma fetch_source_ignores_enabled_witness :
  wf_registry Scenario.registry
  ∧ (("C", Scenario.C) ∈ Scenario.registry)
  ∧ enabled Scenario.C = false
  ∧ get_source (get_enabled_sources Scenario.registry) "C" = None
  ∧ result (fetch_source Scenario.registry "C" 10)
    = Return (FList [Scenario.item "c4" "u4" "C"]).
Proof.
  assert (wf_registry Scenario.registry) as Hwf by apply registry_of_wf.
  assert (("C", Scenario.C) ∈ Scenario.registry) as Hin.
  { apply dict_get_elem_of. reflexivity. }
  split; [exact Hwf|]. split; [exact Hin|]. split; [reflexivity|].
  pose proof (fetch_source_ignores_enabled Scenario.registry "C" Scenario.C
                10 Hwf Hin eq_refl) as (Hoff & _ & _ & _ & Hitems).
  split; [exact Hoff|].
  exact (Hitems [Scenario.item "c4" "u4" "C"] eq_refl).
Defined.

(** C4. Unknown source: for a name that is not a key of the registry,
    [fetch_source] prints the not-found line and returns the empty list; it
    does not raise. *)
Theorem fetch_source_unknown (reg : Registry) (nm : string) (limit : Z) :
  nm ∉ reg.*1 →
  fetch_source reg nm limit = ([SourceNotFound nm], Return (FList [])).
Proof.
  intros Hnm%dict_get_None. unfold fetch_source, get_source.
  by rewrite Hnm.
Qed.

Lemma fetch_source_unknown_witness :
  ("Missing" ∉ Scenario.registry.*1)
  ∧ fetch_source Scenario.registry "Missing" 5
    = ([SourceNotFound "Missing"], Return (FList [])).
Proof.
  assert ("Missing" ∉ Scenario.registry.*1) as H.
  { apply dict_get_None. reflexivity. }
  split; [exact H|].
  exact (fetch_source_unknown Scenario.registry "Missing" 5 H).
Defined.

(** C5. Enabled filtering: [get_enabled_sources] holds exactly the entries
    of the registry whose class has [enabled] set, in registry order;
    [fetch_all] depends on the registry through these entries only, and
    every item that it returns is in the list that the [fetch] of an enabled
    class returned, so that no item carries a source name that only a
    disabled class produces; and with no enabled source it prints a warning
    and returns the empty list. *)
Theorem enabled_filtering (reg : Registry) (limit : Z) :
  (∀ n cls, (n, cls) ∈ get_enabled_sources reg
            ↔ (n, cls) ∈ reg ∧ enabled cls = true)
  ∧ get_enabled_sources reg `sublist_of` reg
  ∧ (∀ reg', get_enabled_sources reg' = get_enabled_sources reg →
             fetch_all reg' limit = fetch_all reg limit)
  ∧ (∃ out, result (fetch_all reg limit) = Return out
       ∧ ∀ it, it ∈ out →
           ∃ n cls items, (n, cls) ∈ reg ∧ enabled cls = true
             ∧ fetch cls limit = Return (FList items) ∧ it ∈ items)
  ∧ (∀ d,
       (∀ n cls items it, (n, cls) ∈ reg → enabled cls = true →
          fetch cls limit = Return (FList items) → it ∈ items →
          source it ≠ d) →
       ∀ out it, result (fetch_all reg limit) = Return out → it ∈ out →
                 source it ≠ d)
  ∧ (get_enabled_sources reg = [] →
     fetch_all reg limit = ([NoEnabledSource], Return [])).
Proof.
  assert (∃ out, result (fetch_all reg limit) = Return out
            ∧ ∀ it, it ∈ out →
                ∃ n cls items, (n, cls) ∈ reg ∧ enabled cls = true
                  ∧ fetch cls limit = Return (FList items) ∧ it ∈ items)
    as Hout.
  { rewrite fetch_all_eq.
    destruct (get_enabled_sources reg) as [|p sources] eqn:E.
    - exists []. split; [done|]. by intros it ?%elem_of_nil.
    - eexists. split; [reflexivity|]. intros it Hit%dedup_elem_of.
      apply list_elem_of_In, in_flat_map in Hit as (src & Hsrc & Hit).
      rewrite <- list_elem_of_In in Hsrc.
      apply list_elem_of_fmap in Hsrc as ([n cls] & -> & Hin).
      rewrite <- E in Hin.
      apply elem_of_get_enabled_sources in Hin as [Hin Hen].
      unfold contribution in Hit. simpl in Hit.
      destruct (fetch cls limit) as [[items|]|] eqn:Hf; try done.
      exists n, cls, items. by rewrite list_elem_of_In. }
  split; [apply elem_of_get_enabled_sources|].
  split; [apply get_enabled_sources_sublist|].
  split; [intros reg' E; unfold fetch_all; by rewrite E|].
  split; [exact Hout|]. split.
  - intros d Hd out it Hres Hit.
    destruct Hout as (out' & Hres' & Hfrom).
    rewrite Hres in Hres'. injection Hres' as <-.
    destruct (Hfrom it Hit) as (n & cls & items & ? & ? & ? & ?).
    by eapply Hd.
  - intros E. by rewrite fetch_all_eq, E.
Qed.

(** C10. No isolation in [fetch_source]: when the class is registered and
    its [fetch] raises, [fetch_source] raises the same exception. Inside
    [fetch_sources] the failure is dropped without a word: the call prints
    and returns what it would without that name in the list. *)
Theorem fetch_source_propagates
    (reg : Registry) (X : string) (cls : NewsSource) (limit : Z) (e : pyexc) :
  get_source reg X = Some cls →
  fetch cls limit = Raise e →
  fetch_source reg X limit = ([], Raise e)
  ∧ (∀ pre post,
       fetch_sources reg (pre ++ X :: post) limit
       = fetch_sources reg (pre ++ post) limit)
  ∧ (∀ names, ∃ out, result (fetch_sources reg names limit) = Return out).
Proof.
  intros Hget Hfail.
  assert (fetch_source reg X limit = ([], Raise e)) as HX.
  { unfold fetch_source. by rewrite Hget, Hfail. }
  split; [exact HX|]. split.
  - intros pre post. rewrite !fetch_sources_eq, !flat_map_app. simpl.
    unfold named_contribution at 2. by rewrite HX.
  - intros names. rewrite fetch_sources_eq. by eexists.
Qed.

Lemma fetch_source_propagates_witness :
  get_source Scenario.failing_registry "G" = Some Scenario.G
  ∧ fetch Scenario.G 10 = Raise (PyException "refused")
  ∧ fetch_source Scenario.failing_registry "G" 10
    = ([], Raise (PyException "refused"))
  ∧ fetch_sources Scenario.failing_registry (["A"] ++ "G" :: ["C"]) 10
    = fetch_sources Scenario.failing_registry (["A"] ++ ["C"]) 10.
Proof.
  split; [reflexivity|]. split; [reflexivity|].
  pose proof (fetch_source_propagates Scenario.failing_registry "G"
                Scenario.G 10 (PyException "refused") eq_refl eq_refl)
    as (H1 & H2 & _).
  split; [exact H1|exact (H2 ["A"] ["C"])].
Defined.

(** ** The sources and the limit *)

Section limit_facts.
Context {A : Type}.

Lemma slice_to_nonneg (l : list A) (k : Z) :
  (0 ≤ k)%Z → slice_to l k = take (Z.to_nat k) l.
Proof.
  intros Hk. unfold slice_to.
  destruct (k <? 0)%Z eqn:E; [|done]. apply Z.ltb_lt in E. lia.
Qed.

Lemma slice_to_negative (l : list A) (k : Z) :
  (k < 0)%Z → slice_to l k = take (length l - Z.to_nat (- k)) l.
Proof.
  intros Hk. unfold slice_to.
  destruct (k <? 0)%Z eqn:E; [|apply Z.ltb_ge in E; lia].
  f_equal. lia.
Qed.

Lemma slice_to_length (l : list A) (k : Z) :
  (0 ≤ k)%Z → (Z.of_nat (length (slice_to l k)) ≤ k)%Z.
Proof.
  intros Hk. rewrite slice_to_nonneg, length_take by done. lia.
Qed.
End limit_facts.

Lemma keep_items_length results items :
  (length (keep_items results items) ≤ length items + length results)%nat.
Proof.
  revert items. induction results as [|[[item|]|e] rest IH]; intros items;
    simpl; [lia| |specialize (IH items); lia..].
  specialize (IH (items ++ [item])). rewrite length_app in IH. simpl in IH.
  lia.
Qed.

Lemma parse_entries_length {entry} (_parse_entry : entry → _) entries items :
  (length (parse_entries entry _parse_entry entries items).1
   ≤ length items + length entries)%nat.
Proof.
  revert items. induction entries as [|e rest IH]; intros items; simpl;
    [lia|].
  destruct (_parse_entry e) as [[item|]|exc]; simpl;
    [|specialize (IH items); lia|lia].
  specialize (IH (items ++ [item])). rewrite length_app in IH. simpl in IH.
  lia.
Qed.

Lemma parse_articles_length {article} (_parse_repo_article : article → _)
    articles items out :
  parse_articles article _parse_repo_article articles items = Return out →
  (length out ≤ length items + length articles)%nat.
Proof.
  revert items. induction articles as [|a rest IH]; intros items; simpl.
  - intros [= <-]. lia.
  - destruct (_parse_repo_article a) as [[item|]|[msg|]]; try done;
      intros H%IH; [|lia..].
    rewrite length_app in H. simpl in H. lia.
Qed.

(** The two fetches that await in sequence, in closed form. *)
Lemma HackerNews_fetch_eq {story_id}
    (topstories : outcome (http_response (decoded story_id)))
    _fetch_story limit :
  HackerNews_fetch topstories _fetch_story limit
  = match topstories with
    | Raise e => ([], Raise e)
    | Return resp =>
        if decide (status resp ≠ 200%Z) then ([], Return (FList []))
        else
          match payload resp with
          | Raise e => ([], Raise e)
          | Return (NoSequence msg) => ([], Raise (PyException msg))
          | Return (Sequence story_ids) =>
              ([], Return (FList (keep_items
                                    (map _fetch_story
                                         (slice_to story_ids limit)) [])))
          end
    end.
Proof.
  unfold HackerNews_fetch. destruct topstories as [resp|e]; [|done].
  unfold await at 1, bind at 1.
  case_decide; [done|].
  destruct (payload resp) as [[story_ids|msg]|e]; [|done..].
  unfold await at 1, bind at 1. unfold decoded_slice.
  unfold await at 1, bind at 1. rewrite gather_await. done.
Qed.

Lemma GitHubTrending_fetch_eq article trending _parse_repo_article limit :
  GitHubTrending_fetch article trending _parse_repo_article limit
  = match trending with
    | Raise e => ([], Raise e)
    | Return resp =>
        if decide (status resp ≠ 200%Z) then ([], Return (FList []))
        else
          match payload resp with
          | Raise e => ([], Raise e)
          | Return articles =>
              match _parse_trending_page article _parse_repo_article
                                         articles limit with
              | Raise e => ([], Raise e)
              | Return items => ([], Return (FList items))
              end
          end
    end.
Proof.
  unfold GitHubTrending_fetch. destruct trending as [resp|e]; [|done].
  unfold await at 1, bind at 1.
  case_decide; [done|].
  destruct (payload resp) as [articles|e]; [|done].
  unfold await, bind.
  by destruct (_parse_trending_page _ _ articles limit).
Qed.

(** C7. The limit. The contract of [fetch] takes a positive limit; the
    bound holds from [0] on: whatever the upstream answers, the list that
    [fetch] returns has at most [limit] items, for the Hacker News source,
    for every RSS source and for the GitHub Trending source, and so has the
    list that [_parse_trending_page] returns. *)
Theorem fetch_respects_limit (limit : Z) :
  (0 ≤ limit)%Z →
  (∀ story_id (topstories : outcome (http_response (decoded story_id)))
     _fetch_story items,
     fetch (HackerNewsSource topstories _fetch_story) limit
     = Return (FList items) →
     (Z.of_nat (length items) ≤ limit)%Z)
  ∧ (∀ nm descr feed_url on entry feed _parse_entry items,
       fetch (RSSSource nm descr feed_url on entry feed _parse_entry) limit
       = Return (FList items) →
       (Z.of_nat (length items) ≤ limit)%Z)
  ∧ (∀ article trending _parse_repo_article items,
       fetch (GitHubTrendingSource article trending _parse_repo_article) limit
       = Return (FList items) →
       (Z.of_nat (length items) ≤ limit)%Z)
  ∧ (∀ article _parse_repo_article articles items,
       _parse_trending_page article _parse_repo_article articles limit
       = Return items →
       (Z.of_nat (length items) ≤ limit)%Z).
Proof.
  intros Hk.
  assert (∀ article _parse_repo_article articles items,
            _parse_trending_page article _parse_repo_article articles limit
            = Return items →
            (Z.of_nat (length items) ≤ limit)%Z) as Hpage.
  { intros article parse articles items H%parse_articles_length.
    pose proof (slice_to_length articles limit Hk). simpl in H. lia. }
  repeat split; [| | |exact Hpage].
  - intros story_id topstories _fetch_story items.
    cbn [fetch HackerNewsSource]. rewrite HackerNews_fetch_eq.
    destruct topstories as [resp|e]; [|done].
    case_decide; [intros [= <-]; simpl; lia|].
    destruct (payload resp) as [[story_ids|msg]|e]; [|done..].
    intros [= <-].
    pose proof (keep_items_length
                  (map _fetch_story (slice_to story_ids limit)) []) as H1.
    pose proof (slice_to_length story_ids limit Hk) as H2.
    rewrite length_map in H1. simpl in H1. lia.
  - intros nm descr feed_url on entry feed _parse_entry items.
    cbn [fetch RSSSource]. unfold RSS_fetch.
    destruct (negb _); [intros [= <-]; simpl; lia|].
    assert (Z.of_nat (length (rss_try entry feed _parse_entry limit).1)
            ≤ limit)%Z as Hlen.
    { unfold rss_try. destruct feed as [resp|exc]; [|simpl; lia].
      case_decide; [simpl; lia|].
      destruct (payload resp) as [entries|exc]; [|simpl; lia].
      pose proof (parse_entries_length _parse_entry
                    (slice_to entries limit) []) as H1.
      pose proof (slice_to_length entries limit Hk) as H2.
      simpl in H1. lia. }
    destruct (rss_try entry feed _parse_entry limit) as [its [[msg|]|]];
      simpl in *; [intros [= <-]; lia|done|intros [= <-]; lia].
  - intros article trending _parse_repo_article items.
    cbn [fetch GitHubTrendingSource]. rewrite GitHubTrending_fetch_eq.
    destruct trending as [resp|e]; [|done].
    case_decide; [intros [= <-]; simpl; lia|].
    destruct (payload resp) as [articles|e]; [|done].
    destruct (_parse_trending_page _ _ articles limit) as [out|e] eqn:E;
      [|done].
    intros [= <-]. by eapply Hpage.
Qed.

Lemma fetch_respects_limit_witness :
  (0 ≤ 2)%Z
  ∧ fetch Scenario.HN 2
    = Return (FList [Scenario.item "story" "u1" "HackerNews";
                     Scenario.item "story" "u2" "HackerNews"])
  ∧ (Z.of_nat 2 ≤ 2)%Z.
Proof.
  assert (0 ≤ 2)%Z as H by lia.
  split; [exact H|]. split; [reflexivity|].
  exact (proj1 (fetch_respects_limit 2 H) Z Scenario.topstories
               Scenario.story
               [Scenario.item "story" "u1" "HackerNews";
                Scenario.item "story" "u2" "HackerNews"] eq_refl).
Defined.

(** * Further properties *)

(** ** The registry, further *)

Section dict_facts.
Context {V : Type}.
Implicit Types (d : list (string * V)) (k : string) (v : V).

Lemma dict_get_set_ne d k k' v :
  k' ≠ k → dict_get k' (dict_set k v d) = dict_get k' d.
Proof.
  intros Hne. induction d as [|[k0 v0] d IH]; simpl.
  - by rewrite decide_False.
  - destruct (decide (k0 = k)) as [->|Hk0]; simpl.
    + by rewrite !decide_False.
    + by rewrite IH.
Qed.

Lemma dict_set_set d k v1 v2 :
  dict_set k v2 (dict_set k v1 d) = dict_set k v2 d.
Proof.
  induction d as [|[k0 v0] d IH]; simpl.
  - by rewrite decide_True.
  - destruct (decide (k0 = k)) as [->|Hk0]; simpl.
    + by rewrite decide_True.
    + by rewrite decide_False, IH.
Qed.

Lemma dict_set_Forall (P : string * V → Prop) d k v :
  P (k, v) → Forall P d → Forall P (dict_set k v d).
Proof.
  intros Hkv. induction 1 as [|[k0 v0] d Hp Hd IH]; simpl.
  - by repeat constructor.
  - destruct (decide (k0 = k)); by constructor.
Qed.
End dict_facts.

Lemma register_source_keyed cls reg :
  keyed_by_name reg → keyed_by_name (register_source cls reg).
Proof. intros H. by apply dict_set_Forall. Qed.

Lemma registry_of_invariant (P : Registry → Prop) classes :
  P [] → (∀ cls reg, P reg → P (register_source cls reg)) →
  P (registry_of classes).
Proof.
  intros Hnil Hstep. unfold registry_of.
  revert Hnil. generalize (@nil (string * NewsSource)) as reg.
  induction classes as [|cls classes IH]; intros reg Hreg; [done|].
  simpl. apply IH. by apply Hstep.
Qed.

Lemma registry_of_keyed classes : keyed_by_name (registry_of classes).
Proof.
  apply registry_of_invariant; [constructor|apply register_source_keyed].
Qed.

(** X1. Registration and lookup: after [register_source cls] the name of
    the class looks up to that class, and every other name looks up to what
    it did before. *)
Theorem register_source_lookup (cls : NewsSource) (reg : Registry) :
  get_source (register_source cls reg) (name cls) = Some cls
  ∧ (∀ n, n ≠ name cls →
          get_source (register_source cls reg) n = get_source reg n).
Proof.
  split; [apply dict_get_set|].
  intros n Hn. by apply dict_get_set_ne.
Qed.

(** X2. Last registration wins: registering under a name that is already a
    key replaces the class where it stands, so that the names and their
    order do not change, and a new name goes to the end; registering twice
    under one name is the same as registering the second class only; and
    the keys stay distinct. *)
Theorem register_source_overwrites (cls : NewsSource) (reg : Registry) :
  (register_source cls reg).*1
  = (if decide (name cls ∈ reg.*1) then reg.*1 else reg.*1 ++ [name cls])
  ∧ (∀ cls', name cls' = name cls →
       register_source cls (register_source cls' reg)
       = register_source cls reg)
  ∧ (wf_registry reg → wf_registry (register_source cls reg)).
Proof.
  split; [apply dict_set_keys|]. split; [|apply register_source_wf].
  intros cls' Hname. unfold register_source. rewrite Hname.
  apply dict_set_set.
Qed.

(** X3. Enabled view and lookup agree: in a registry built by
    registrations, a name looks up to a class among the enabled sources
    exactly when it looks up to that class in the whole registry and the
    class is enabled. *)
Theorem get_source_enabled (classes : list NewsSource) (n : string)
    (cls : NewsSource) :
  get_source (get_enabled_sources (registry_of classes)) n = Some cls
  ↔ get_source (registry_of classes) n = Some cls ∧ enabled cls = true.
Proof. apply get_source_enabled_wf, registry_of_wf. Qed.

Lemma elem_of_list_sources reg row :
  row ∈ list_sources reg
  ↔ ∃ k cls, (k, cls) ∈ reg
             ∧ row = (name cls, description cls, enabled cls).
Proof.
  unfold list_sources. rewrite list_elem_of_In, in_map_iff. split.
  - intros (cls & <- & Hin). rewrite <- list_elem_of_In in Hin.
    apply list_elem_of_fmap in Hin as ([k c] & -> & Hin). by exists k, c.
  - intros (k & cls & Hin & ->). exists cls. split; [done|].
    rewrite <- list_elem_of_In. apply list_elem_of_fmap. by exists (k, cls).
Qed.

Lemma list_sources_enabled reg :
  list_sources (get_enabled_sources reg)
  = List.filter (λ row, row.2) (list_sources reg).
Proof.
  unfold list_sources, get_enabled_sources.
  induction reg as [|[k c] reg IH]; [done|].
  cbn [List.filter]. rewrite (fmap_cons snd (k, c) reg).
  cbn [snd map List.filter]. destruct (enabled c) eqn:E.
  - rewrite fmap_cons. cbn [snd map]. by rewrite E, IH.
  - exact IH.
Qed.

Lemma list_sources_names reg :
  keyed_by_name reg → (list_sources reg).*1.*1 = reg.*1.
Proof.
  unfold list_sources.
  induction 1 as [|[k c] r Hk _ IH]; [done|].
  rewrite (fmap_cons snd (k, c) r). cbn [snd map fst] in *.
  rewrite !fmap_cons. cbn [fst]. by rewrite <- Hk, <- IH.
Qed.

(** X4. The listing: in a registry built by registrations, [list_sources]
    has one row per key, in registry order, under the key as the name; a row
    is listed exactly when its name looks up to a class with that
    description and that flag; and the rows flagged enabled are the listing
    of [get_enabled_sources]. *)
Theorem list_sources_rows (classes : list NewsSource) :
  let reg := registry_of classes in
  (list_sources reg).*1.*1 = reg.*1
  ∧ (∀ n d e, (n, d, e) ∈ list_sources reg
              ↔ ∃ cls, get_source reg n = Some cls
                       ∧ description cls = d ∧ enabled cls = e)
  ∧ list_sources (get_enabled_sources reg)
    = List.filter (λ row, row.2) (list_sources reg).
Proof.
  intros reg.
  pose proof (registry_of_keyed classes) as Hkeyed.
  pose proof (registry_of_wf classes) as Hwf.
  fold reg in Hkeyed, Hwf. clearbody reg.
  split; [by apply list_sources_names|].
  split; [|apply list_sources_enabled].
  intros n d e. rewrite elem_of_list_sources. split.
  - intros (k & cls & Hin & [= -> -> ->]). exists cls.
    split; [|done]. apply dict_get_Some_wf; [done|].
    unfold keyed_by_name in Hkeyed. rewrite Forall_forall in Hkeyed.
    pose proof (Hkeyed _ Hin) as Hn. simpl in Hn. by rewrite <- Hn.
  - intros (cls & Hget & <- & <-).
    apply dict_get_Some_wf in Hget; [|done].
    unfold keyed_by_name in Hkeyed. rewrite Forall_forall in Hkeyed.
    pose proof (Hkeyed _ Hget) as Hn. simpl in Hn. subst n.
    by exists (name cls), cls.
Qed.

(** ** The aggregator, further *)

(** X5. The lists that the dedup step leaves alone are those whose urls
    are not empty and differ from one another. *)
Theorem dedup_fixed_point (l : list NewsItem) :
  dedup l = l ↔ NoDup (url <$> l) ∧ (∀ x, x ∈ l → url x ≠ "").
Proof.
  split.
  - intros E. split.
    + rewrite <- E. apply dedup_NoDup.
    + intros x Hx. rewrite <- E in Hx. by apply dedup_url_nonempty in Hx.
  - induction l as [|x l IH] using rev_ind; [done|].
    rewrite fmap_app, NoDup_app. intros [(Hl & Hx & _) Hne].
    rewrite dedup_snoc, IH, decide_True; [done| |].
    + split; [apply Hne, elem_of_app; right; apply list_elem_of_here|].
      intros Hin. apply (Hx _ Hin). apply list_elem_of_here.
    + split; [done|]. intros y Hy. apply Hne, elem_of_app. by left.
Qed.

Lemma dedup_output l :
  NoDup (url <$> dedup l) ∧ Forall (λ x, url x ≠ "") (dedup l)
  ∧ dedup l `sublist_of` l.
Proof.
  split; [apply dedup_NoDup|]. split; [|apply dedup_sublist].
  apply Forall_forall. intros x. apply dedup_url_nonempty.
Qed.

(** X6. What the aggregate calls return: [fetch_all] and [fetch_sources]
    return, without raising, a list in which no url is empty and no url
    occurs twice. *)
Theorem aggregate_urls_distinct (reg : Registry) (limit : Z) :
  (∃ out, result (fetch_all reg limit) = Return out
          ∧ NoDup (url <$> out) ∧ Forall (λ x, url x ≠ "") out)
  ∧ (∀ names, ∃ out, result (fetch_sources reg names limit) = Return out
                     ∧ NoDup (url <$> out) ∧ Forall (λ x, url x ≠ "") out).
Proof.
  split.
  - rewrite fetch_all_eq. destruct (get_enabled_sources reg).
    + exists []. repeat split; constructor.
    + eexists. split; [reflexivity|].
      split; apply (dedup_output (flat_map _ _)).
  - intros names. rewrite fetch_sources_eq. eexists. split; [reflexivity|].
    split; apply (dedup_output (flat_map _ _)).
Qed.

Lemma flat_map_nil {A B} (f : A → list B) (l : list A) :
  Forall (λ a, f a = []) l → flat_map f l = [].
Proof. induction 1 as [|a l Ha _ IH]; simpl; [done|]. by rewrite Ha, IH. Qed.

(** X7. When every enabled source fails: if the [fetch] of every enabled
    class raises, [fetch_all] returns the empty list, and prints one line
    for each failure that is an [Exception], in registry order. *)
Theorem fetch_all_all_fail (reg : Registry) (limit : Z) :
  (∀ n cls, (n, cls) ∈ reg → enabled cls = true →
            ∃ e, fetch cls limit = Raise e) →
  result (fetch_all reg limit) = Return []
  ∧ (get_enabled_sources reg ≠ [] →
     printed (fetch_all reg limit)
     = flat_map (λ cls, match fetch cls limit with
                        | Raise (PyException msg) =>
                            [FetchFailed (name cls) (PyException msg)]
                        | _ => []
                        end) (get_enabled_sources reg).*2).
Proof.
  intros Hfail. rewrite fetch_all_eq.
  destruct (get_enabled_sources reg) as [|p srcs] eqn:E; [done|].
  assert (flat_map (contribution limit) (p :: srcs).*2 = []) as Hnil.
  { apply flat_map_nil. rewrite <- E.
    apply Forall_forall. intros cls ([n c] & -> & Hin)%list_elem_of_fmap.
    apply elem_of_get_enabled_sources in Hin as [Hin Hen].
    destruct (Hfail n c Hin Hen) as [e He].
    unfold contribution. simpl. by rewrite He. }
  split; [|done]. unfold result. cbn [snd]. by rewrite Hnil.
Qed.

Lemma fetch_all_all_fail_witness :
  result (fetch_all Scenario2.broken_registry 10) = Return []
  ∧ printed (fetch_all Scenario2.broken_registry 10)
    = [FetchFailed "F" (PyException "timeout")].
Proof.
  assert (∀ n cls, (n, cls) ∈ Scenario2.broken_registry →
                   enabled cls = true → ∃ e, fetch cls 10 = Raise e) as H.
  { intros n cls Hin Hen.
    change Scenario2.broken_registry
      with [("F", Scenario.F); ("C", Scenario.C); ("H", Scenario2.H)] in Hin.
    repeat (apply elem_of_cons in Hin as [[= -> ->]|Hin]);
      [by eexists|done|by eexists|by apply elem_of_nil in Hin]. }
  destruct (fetch_all_all_fail Scenario2.broken_registry 10 H) as [H1 H2].
  split; [exact H1|]. rewrite H2; [reflexivity|discriminate].
Defined.

Lemma printed_fetch_source reg n limit :
  printed (fetch_source reg n limit)
  = if bool_decide (n ∉ reg.*1) then [SourceNotFound n] else [].
Proof.
  unfold fetch_source, get_source.
  destruct (dict_get n reg) as [cls|] eqn:E.
  - rewrite bool_decide_eq_false_2; [done|].
    intros Hn%dict_get_None. congruence.
  - apply dict_get_None in E. by rewrite bool_decide_eq_true_2.
Qed.

Lemma named_contribution_unknown reg limit n :
  n ∉ reg.*1 → named_contribution reg limit n = [].
Proof.
  intros Hn%dict_get_None. unfold named_contribution, fetch_source, get_source.
  by rewrite Hn.
Qed.

(** X8. Unknown names in [fetch_sources]: among the lines that are
    printed, the not-found lines are one for each name that is not a key of
    the registry, in the order of the names, and none for a name that is a
    key; and such names add nothing to the result, which is the result for
    the names that are keys. *)
Theorem fetch_sources_not_found_lines
    (reg : Registry) (names : list string) (limit : Z) :
  List.filter is_not_found (printed (fetch_sources reg names limit))
  = map SourceNotFound (List.filter (λ n, bool_decide (n ∉ reg.*1)) names)
  ∧ result (fetch_sources reg names limit)
    = result (fetch_sources reg
                (List.filter (λ n, bool_decide (n ∈ reg.*1)) names) limit).
Proof.
  rewrite !fetch_sources_eq. unfold printed, result. cbn [fst snd]. split.
  - induction names as [|n names IH]; [done|].
    cbn [flat_map List.filter]. rewrite List.filter_app, IH.
    change (fetch_source reg n limit).1
      with (printed (fetch_source reg n limit)).
    rewrite printed_fetch_source.
    by destruct (bool_decide (n ∉ reg.*1)).
  - do 2 f_equal. induction names as [|n names IH]; [done|].
    cbn [flat_map List.filter]. rewrite IH.
    destruct (bool_decide (n ∈ reg.*1)) eqn:E; [done|].
    apply bool_decide_eq_false in E.
    by rewrite named_contribution_unknown.
Qed.

(** X9. One name through [fetch_sources]: what [fetch_source] returns for a
    name comes back from [fetch_sources] on that name alone after the dedup
    step, so without its repeated urls and its items without url, which
    [fetch_source] itself leaves in. *)
Theorem fetch_sources_single
    (reg : Registry) (n : string) (limit : Z) (log : list event)
    (items : list NewsItem) :
  fetch_source reg n limit = (log, Return (FList items)) →
  fetch_sources reg [n] limit = (log, Return (dedup items)).
Proof.
  intros E. rewrite fetch_sources_eq. simpl.
  unfold named_contribution. rewrite E. simpl. by rewrite !app_nil_r.
Qed.

Lemma fetch_sources_single_witness :
  fetch_source Scenario2.registry "D" 10
  = ([], Return (FList [Scenario.item "d1" "u1" "D";
                        Scenario.item "d2" "u1" "D";
                        Scenario.item "d3" "" "D"]))
  ∧ fetch_sources Scenario2.registry ["D"] 10
    = ([], Return [Scenario.item "d1" "u1" "D"]).
Proof.
  split; [reflexivity|].
  exact (fetch_sources_single Scenario2.registry "D" 10 [] _ eq_refl).
Defined.

Lemma contributions_by_name reg limit (l : Registry) :
  Forall (λ p, get_source reg p.1 = Some p.2) l →
  flat_map (contribution limit) l.*2
  = flat_map (named_contribution reg limit) l.*1.
Proof.
  induction 1 as [|[n cls] l Hget _ IH]; [done|].
  rewrite !fmap_cons. simpl. rewrite IH. f_equal.
  unfold named_contribution, fetch_source. simpl in Hget. by rewrite Hget.
Qed.

(** X10. [fetch_all] through [fetch_sources]: in a registry built by
    registrations, [fetch_all] returns what [fetch_sources] returns for the
    names of the enabled sources. *)
Theorem fetch_all_as_fetch_sources (classes : list NewsSource) (limit : Z) :
  let reg := registry_of classes in
  result (fetch_all reg limit)
  = result (fetch_sources reg (get_enabled_sources reg).*1 limit).
Proof.
  intros reg. pose proof (registry_of_wf classes) as Hwf. fold reg in Hwf.
  clearbody reg. rewrite fetch_all_eq, fetch_sources_eq.
  assert (flat_map (contribution limit) (get_enabled_sources reg).*2
          = flat_map (named_contribution reg limit)
                     (get_enabled_sources reg).*1) as E.
  { apply contributions_by_name, Forall_forall. intros [n cls] Hin.
    apply elem_of_get_enabled_sources in Hin as [Hin _].
    by apply dict_get_Some_wf. }
  destruct (get_enabled_sources reg) as [|p srcs]; [done|].
  unfold result. cbn [snd]. by rewrite E.
Qed.

(** X11. When [fetch_news] raises: only through the single named source.
    The call raises [e] exactly when a non-empty [source] was passed that is
    registered and whose [fetch] raises [e]; called with a list of names or
    with nothing, it does not raise. *)
Theorem fetch_news_raises
    (reg : Registry) (source0 : option string)
    (sources0 : option (list string)) (limit : Z) (e : pyexc) :
  result (fetch_news reg source0 sources0 limit) = Raise e
  ↔ ∃ n cls, source0 = Some n ∧ n ≠ ""
             ∧ get_source reg n = Some cls ∧ fetch cls limit = Raise e.
Proof.
  unfold fetch_news. split.
  - destruct source0 as [[|c s]|].
    + destruct sources0 as [[|n ns]|];
        rewrite ?fetch_all_eq, ?fetch_sources_eq;
        repeat case_match; done.
    + unfold fetch_source. intros H. exists (String c s).
      destruct (get_source reg (String c s)) as [cls|]; [|done].
      exists cls. done.
    + destruct sources0 as [[|n ns]|];
        rewrite ?fetch_all_eq, ?fetch_sources_eq;
        repeat case_match; done.
  - intros (n & cls & -> & Hn & Hget & Hfail).
    destruct n as [|c s]; [done|]. unfold fetch_source.
    by rewrite Hget, Hfail.
Qed.

(** ** The sources, further *)

Lemma keep_items_omap results items :
  keep_items results items = items ++ omap loaded results.
Proof.
  revert items. induction results as [|[[item|]|e] rest IH]; intros items;
    simpl; rewrite ?IH, ?app_nil_r; try done.
  by rewrite <- app_assoc.
Qed.

(** X12. Hacker News, story by story: [fetch] raises exactly when the
    request for the top stories raises, when the decoding of its answer
    raises, or when the decoded value is neither a list nor a string, so
    that slicing it raises; an answer whose status is not 200 gives the
    empty list; otherwise [fetch] returns the items of the stories that
    loaded among the ids kept by the limit, in the order of the ids,
    whatever happened to the other stories. *)
Theorem HackerNews_fetch_stories
    (story_id : Type)
    (topstories : outcome (http_response (decoded story_id)))
    (_fetch_story : story_id → outcome (option NewsItem)) (limit : Z) :
  (∀ e, result (HackerNews_fetch topstories _fetch_story limit) = Raise e
        ↔ topstories = Raise e
          ∨ ∃ resp, topstories = Return resp ∧ status resp = 200%Z
                    ∧ (payload resp = Raise e
                       ∨ ∃ msg, payload resp = Return (NoSequence msg)
                                ∧ e = PyException msg))
  ∧ (∀ resp, topstories = Return resp → status resp ≠ 200%Z →
       HackerNews_fetch topstories _fetch_story limit
       = ([], Return (FList [])))
  ∧ (∀ resp story_ids,
       topstories = Return resp → status resp = 200%Z →
       payload resp = Return (Sequence story_ids) →
       HackerNews_fetch topstories _fetch_story limit
       = ([], Return (FList (omap loaded
                               (map _fetch_story
                                    (slice_to story_ids limit)))))).
Proof.
  rewrite HackerNews_fetch_eq. repeat split.
  - destruct topstories as [resp|e']; [|intros [= ->]; by left].
    case_decide as Hs; [done|].
    assert (status resp = 200%Z) as H200.
    { destruct (decide (status resp = 200%Z)); [done|]. by destruct Hs. }
    destruct (payload resp) as [[ids|msg]|e'] eqn:Hp; [done|..];
      intros [= <-]; right; exists resp; (split; [done|]);
      (split; [done|]).
    + right. by exists msg.
    + by left.
  - intros [->|(resp & -> & Hs & [Hp|(msg & Hp & ->)])]; [done|..];
      rewrite decide_False by (intros H; by apply H); by rewrite Hp.
  - intros resp -> Hs. by rewrite decide_True.
  - intros resp ids -> Hs Hp.
    rewrite decide_False by (intros H; by apply H).
    by rewrite Hp, keep_items_omap.
Qed.

Section rss_facts.
Context {entry : Type}.
Variables (rss_name feed_url : string).
Variable feed : outcome (http_response (list entry)).
Variable _parse_entry : entry → outcome (option NewsItem).

Lemma parse_entries_returned (pre rest : list entry) items :
  Forall (λ x, ∃ r, _parse_entry x = Return r) pre →
  parse_entries entry _parse_entry (pre ++ rest) items
  = parse_entries entry _parse_entry rest
      (items ++ omap loaded (map _parse_entry pre)).
Proof.
  intros Hpre. revert items.
  induction Hpre as [|x pre [r Hr] _ IH]; intros items; simpl.
  - by rewrite app_nil_r.
  - rewrite Hr. destruct r as [item|]; simpl; rewrite IH; [|done].
    by rewrite <- app_assoc.
Qed.

Lemma RSS_fetch_cases (limit : Z) :
  let run := RSS_fetch rss_name feed_url entry feed _parse_entry limit in
  (∃ items, run = ([], Return (FList items)))
  ∨ (∃ items msg, run = ([RSSFailed rss_name (PyException msg)],
                         Return (FList items)))
  ∨ run = ([], Raise Cancelled).
Proof.
  unfold RSS_fetch. destruct (negb _); [left; by eexists|].
  destruct (rss_try _ _ _ _) as [items [[msg|]|]].
  - right. left. by exists items, msg.
  - by right; right.
  - left. by eexists.
Qed.
End rss_facts.

(** X13. An RSS source swallows every [Exception]: whatever the upstream
    and the parser do, [fetch] does not raise an [Exception]; it prints
    nothing or one failure line with the name of the source, and a failure
    line comes with a returned list; and with an empty [feed_url] it returns
    the empty list without a line. *)
Theorem RSS_fetch_swallows_exceptions
    (rss_name feed_url : string) (entry : Type) (feed : outcome (http_response (list entry)))
    (_parse_entry : entry → outcome (option NewsItem)) (limit : Z) :
  let run := RSS_fetch rss_name feed_url entry feed _parse_entry limit in
  (∀ msg, result run ≠ Raise (PyException msg))
  ∧ (printed run = []
     ∨ ∃ msg items, run = ([RSSFailed rss_name (PyException msg)],
                           Return (FList items)))
  ∧ (feed_url = "" → run = ([], Return (FList []))).
Proof.
  intros run. split; [|split].
  - intros msg.
    destruct (RSS_fetch_cases rss_name feed_url feed _parse_entry limit)
      as [[items H]|[(items & m & H)|H]]; fold run in H; by rewrite H.
  - destruct (RSS_fetch_cases rss_name feed_url feed _parse_entry limit)
      as [[items H]|[(items & m & H)|H]]; fold run in H; rewrite H.
    + by left.
    + right. by exists m, items.
    + by left.
  - intros ->. done.
Qed.

(** X14. An RSS feed that breaks half way: when the parser raises an
    [Exception] on an entry within the limit, and returned on the entries
    before it, [fetch] prints the failure and returns the items of the
    entries before it; the entries after it are not looked at. *)
Theorem RSS_fetch_partial
    (rss_name feed_url : string) (entry : Type) (feed : outcome (http_response (list entry)))
    (_parse_entry : entry → outcome (option NewsItem)) (limit : Z)
    (resp : http_response (list entry)) (entries pre post : list entry)
    (e : entry) (msg : string) :
  feed_url ≠ "" →
  feed = Return resp → status resp = 200%Z → payload resp = Return entries →
  slice_to entries limit = pre ++ e :: post →
  Forall (λ x, ∃ r, _parse_entry x = Return r) pre →
  _parse_entry e = Raise (PyException msg) →
  RSS_fetch rss_name feed_url entry feed _parse_entry limit
  = ([RSSFailed rss_name (PyException msg)],
     Return (FList (omap loaded (map _parse_entry pre)))).
Proof.
  intros Hurl -> Hs Hp Hslice Hpre He. unfold RSS_fetch.
  apply PyStrFacts.truthy_true in Hurl. rewrite Hurl. simpl negb.
  unfold rss_try. rewrite decide_False by (intros H; by apply H).
  rewrite Hp, Hslice, parse_entries_returned by done.
  simpl. by rewrite He.
Qed.

Lemma RSS_fetch_partial_witness :
  RSS_fetch "V2EX" "https://www.v2ex.com/index.xml" nat
            Scenario2.page Scenario2.parse 10
  = ([RSSFailed "V2EX" (PyException "bad entry")],
     Return (FList [Scenario.item "entry" "u" "feed"])).
Proof.
  refine (RSS_fetch_partial "V2EX" "https://www.v2ex.com/index.xml"
            nat Scenario2.page Scenario2.parse 10
            (mkResponse 200 (Return [0; 1; 2; 3])) [0; 1; 2; 3] [0; 1] [3] 2
            "bad entry" _ eq_refl eq_refl eq_refl eq_refl _ eq_refl).
  - discriminate.
  - repeat constructor; by eexists.
Defined.

Section github_facts.
Context {article : Type}.
Variable _parse_repo_article : article → outcome (option NewsItem).

Lemma parse_articles_omap (articles : list article) items :
  (∀ a, _parse_repo_article a ≠ Raise Cancelled) →
  parse_articles article _parse_repo_article articles items
  = Return (items ++ omap loaded (map _parse_repo_article articles)).
Proof.
  intros Hno. revert items.
  induction articles as [|a rest IH]; intros items; simpl.
  - by rewrite app_nil_r.
  - specialize (Hno a).
    destruct (_parse_repo_article a) as [[item|]|[msg|]]; simpl;
      rewrite ?IH; try done.
    by rewrite <- app_assoc.
Qed.
End github_facts.

(** X15. GitHub Trending, article by article: an article whose parsing
    raises an [Exception], or gives nothing, is skipped and the page goes
    on. [_parse_trending_page] returns the items of the articles that
    parsed among those kept by the limit, in page order, and [fetch] returns
    them when the page came with status 200. *)
Theorem parse_trending_page_skips_failures
    (article : Type) (trending : outcome (http_response (list article)))
    (_parse_repo_article : article → outcome (option NewsItem))
    (limit : Z) :
  (∀ a, _parse_repo_article a ≠ Raise Cancelled) →
  (∀ articles,
     _parse_trending_page article _parse_repo_article articles limit
     = Return (omap loaded (map _parse_repo_article
                                (slice_to articles limit))))
  ∧ (∀ resp articles,
       trending = Return resp → status resp = 200%Z →
       payload resp = Return articles →
       GitHubTrending_fetch article trending _parse_repo_article limit
       = ([], Return (FList (omap loaded
                               (map _parse_repo_article
                                    (slice_to articles limit))))))
  ∧ (∀ resp, trending = Return resp → status resp ≠ 200%Z →
       GitHubTrending_fetch article trending _parse_repo_article limit
       = ([], Return (FList []))).
Proof.
  intros Hno.
  assert (∀ articles,
            _parse_trending_page article _parse_repo_article articles limit
            = Return (omap loaded (map _parse_repo_article
                                       (slice_to articles limit)))) as Hpage.
  { intros articles. unfold _parse_trending_page.
    by rewrite parse_articles_omap. }
  split; [exact Hpage|]. rewrite GitHubTrending_fetch_eq. split.
  - intros resp articles -> Hs Hp.
    rewrite decide_False by (intros H; by apply H).
    by rewrite Hp, Hpage.
  - intros resp -> Hs. by rewrite decide_True.
Qed.

Lemma parse_trending_page_skips_failures_witness :
  _parse_trending_page nat Scenario2.parse [0; 1; 2; 3] 10
  = Return [Scenario.item "entry" "u" "feed";
            Scenario.item "entry" "u" "feed"].
Proof.
  assert (∀ a, Scenario2.parse a ≠ Raise Cancelled) as H.
  { intros [|[|[|a]]]; discriminate. }
  exact (proj1 (parse_trending_page_skips_failures nat Scenario2.page
                  Scenario2.parse 10 H) [0; 1; 2; 3]).
Defined.

(** ** Sorting and counting *)

Section sort_facts.
Context {A : Type} (key : A → nat).
Implicit Types (x : A) (l : list A).

Lemma insert_desc_perm x l : insert_desc key x l ≡ₚ x :: l.
Proof.
  induction l as [|y l IH]; simpl; [done|].
  destruct (key x <? key y)%nat; [|done].
  rewrite IH. apply Permutation_swap.
Qed.

Lemma sorted_desc_perm l : sorted_desc key l ≡ₚ l.
Proof.
  induction l as [|x l IH]; simpl; [done|].
  by rewrite insert_desc_perm, IH.
Qed.

Lemma insert_desc_descending x l :
  descending key l → descending key (insert_desc key x l).
Proof.
  induction l as [|y l IH]; simpl; [by intros; split|].
  intros [Hy Hl]. destruct (key x <? key y)%nat eqn:E; simpl.
  - apply Nat.ltb_lt in E. split; [|by apply IH].
    rewrite insert_desc_perm. constructor; [lia|done].
  - apply Nat.ltb_ge in E. repeat split; [|done..].
    constructor; [done|]. eapply Forall_impl; [exact Hy|].
    intros b Hb. simpl in Hb. lia.
Qed.

Lemma sorted_desc_descending l : descending key (sorted_desc key l).
Proof.
  induction l as [|x l IH]; simpl; [done|]. by apply insert_desc_descending.
Qed.

Lemma descending_split l pre a mid b post :
  descending key l → l = pre ++ a :: mid ++ b :: post →
  (key b ≤ key a)%nat.
Proof.
  revert l. induction pre as [|p pre IH]; intros l Hl ->; simpl in Hl.
  - destruct Hl as [Ha _]. rewrite Forall_forall in Ha. apply Ha.
    apply elem_of_app. right. apply list_elem_of_here.
  - destruct Hl as [_ Hl]. by eapply IH.
Qed.

Lemma insert_desc_filter (n : nat) x l :
  filter (λ a, key a = n) (insert_desc key x l)
  = filter (λ a, key a = n) (x :: l).
Proof.
  induction l as [|y l IH]; simpl; [done|].
  destruct (key x <? key y)%nat eqn:E; [|done].
  apply Nat.ltb_lt in E. rewrite filter_cons, IH, !filter_cons.
  repeat case_decide; try done; lia.
Qed.

Lemma sorted_desc_filter (n : nat) l :
  filter (λ a, key a = n) (sorted_desc key l) = filter (λ a, key a = n) l.
Proof.
  induction l as [|x l IH]; simpl; [done|].
  by rewrite insert_desc_filter, !filter_cons, IH.
Qed.
End sort_facts.

Lemma sorted_desc_map {A B} (f : A → B) (key1 : A → nat) (key2 : B → nat)
    (l : list A) :
  (∀ a, key2 (f a) = key1 a) →
  sorted_desc key2 (map f l) = map f (sorted_desc key1 l).
Proof.
  intros Hkey. induction l as [|x l IH]; simpl; [done|]. rewrite IH.
  generalize (sorted_desc key1 l) as s. intros s.
  induction s as [|y s IHs]; simpl; [done|].
  rewrite !Hkey. destruct (key1 x <? key1 y)%nat; simpl; [|done].
  by rewrite IHs.
Qed.

Section dict_more.
Context {V : Type}.

Lemma dict_set_fresh (d : list (string * V)) k v :
  k ∉ d.*1 → dict_set k v d = d ++ [(k, v)].
Proof.
  induction d as [|[k0 v0] d IH]; simpl; [done|].
  rewrite elem_of_cons. intros Hk.
  rewrite decide_False by (intros ->; tauto). rewrite IH; [done|tauto].
Qed.

Lemma dict_of_pairs_from (acc pairs : list (string * V)) :
  NoDup (acc ++ pairs).*1 →
  fold_left (λ d p, dict_set p.1 p.2 d) pairs acc = acc ++ pairs.
Proof.
  revert acc. induction pairs as [|[k v] pairs IH]; intros acc Hnd; simpl.
  - by rewrite app_nil_r.
  - rewrite dict_set_fresh.
    + rewrite IH; rewrite <- app_assoc; done.
    + rewrite fmap_app, fmap_cons in Hnd.
      apply NoDup_app in Hnd as (_ & Hnd & _).
      intros Hin. apply (Hnd _ Hin). apply list_elem_of_here.
Qed.

(** [dict] of pairs with distinct keys keeps the pairs as they are. *)
Lemma dict_of_pairs_NoDup (pairs : list (string * V)) :
  NoDup pairs.*1 → dict_of_pairs pairs = pairs.
Proof. intros H. by apply (dict_of_pairs_from []). Qed.

Lemma dict_append_keys (d : list (string * list V)) k x :
  (dict_append k x d).*1
  = if decide (k ∈ d.*1) then d.*1 else d.*1 ++ [k].
Proof.
  induction d as [|[k0 l0] d IH]; [done|].
  cbn [dict_append]. destruct (decide (k0 = k)) as [->|Hk];
    rewrite !fmap_cons; cbn [fst].
  - rewrite decide_True; [done|apply list_elem_of_here].
  - rewrite IH. destruct (decide (k ∈ d.*1)) as [Hin|Hin].
    + rewrite decide_True; [done|by apply list_elem_of_further].
    + rewrite decide_False; [done|].
      intros [->|?]%elem_of_cons; done.
Qed.

Lemma dict_append_get (d : list (string * list V)) k x s :
  dict_get s (dict_append k x d)
  = if decide (s = k) then Some (default [] (dict_get k d) ++ [x])
    else dict_get s d.
Proof.
  destruct (decide (s = k)) as [->|Hs].
  - induction d as [|[k0 l0] d IH]; simpl.
    + by rewrite decide_True.
    + destruct (decide (k0 = k)) as [->|Hk0]; simpl.
      * by rewrite decide_True.
      * by rewrite decide_False.
  - induction d as [|[k0 l0] d IH]; simpl.
    + by rewrite (decide_False (P:=k = s)) by congruence.
    + destruct (decide (k0 = k)) as [->|Hk0]; simpl.
      * by rewrite !(decide_False (P:=k = s)) by congruence.
      * by rewrite IH.
Qed.

Lemma dict_append_NoDup (d : list (string * list V)) k x :
  NoDup d.*1 → NoDup (dict_append k x d).*1.
Proof.
  intros Hd. rewrite dict_append_keys. case_decide as Hin; [done|].
  apply NoDup_app. split; [done|]. split; [|apply NoDup_singleton].
  by intros s Hs ->%list_elem_of_singleton.
Qed.

Lemma dict_append_sizes (d : list (string * list V)) k x :
  sum_list_with (λ g, length g.2) (dict_append k x d)
  = S (sum_list_with (λ g, length g.2) d).
Proof.
  induction d as [|[k0 l0] d IH]; simpl; [done|].
  destruct (decide (k0 = k)); simpl.
  - rewrite length_app. simpl. lia.
  - rewrite IH. lia.
Qed.

Lemma counter_incr_sizes (d : list (string * list V)) k x :
  counter_incr k (map (λ g, (g.1, length g.2)) d)
  = map (λ g, (g.1, length g.2)) (dict_append k x d).
Proof.
  induction d as [|[k0 l0] d IH]; simpl; [done|].
  destruct (decide (k0 = k)); simpl.
  - rewrite length_app. simpl. do 2 f_equal. lia.
  - by rewrite IH.
Qed.
End dict_more.

(** ** The report data *)

Section report_facts.
Implicit Types (items : list NewsItem) (s : string).

Lemma group_by_source_snoc items x :
  group_by_source (items ++ [x])
  = dict_append (source x) x (group_by_source items).
Proof. unfold group_by_source. by rewrite fold_left_app. Qed.

Lemma group_by_source_NoDup items : NoDup (group_by_source items).*1.
Proof.
  induction items as [|x items IH] using rev_ind; [constructor|].
  rewrite group_by_source_snoc. by apply dict_append_NoDup.
Qed.

Lemma group_by_source_get items s :
  dict_get s (group_by_source items)
  = match filter (λ it, source it = s) items with
    | [] => None
    | l => Some l
    end.
Proof.
  induction items as [|x items IH] using rev_ind; [done|].
  rewrite group_by_source_snoc, dict_append_get, filter_app.
  rewrite filter_cons, filter_nil.
  destruct (decide (s = source x)) as [->|Hs].
  - rewrite decide_True by done. rewrite IH.
    by destruct (filter _ items).
  - rewrite decide_False by congruence. by rewrite app_nil_r.
Qed.

Lemma group_by_source_keys items :
  (group_by_source items).*1
  = reverse (remove_dups (reverse (source <$> items))).
Proof.
  induction items as [|x items IH] using rev_ind; [done|].
  rewrite group_by_source_snoc, dict_append_keys, IH.
  rewrite fmap_app, reverse_app. simpl.
  destruct (decide_rel elem_of (source x) (reverse (source <$> items)))
    as [Hin|Hin].
  - rewrite decide_True; [done|].
    by rewrite elem_of_reverse, elem_of_remove_dups.
  - rewrite decide_False; [by rewrite reverse_cons|].
    by rewrite elem_of_reverse, elem_of_remove_dups.
Qed.

Lemma group_by_source_sizes items :
  sum_list_with (λ g, length g.2) (group_by_source items) = length items.
Proof.
  induction items as [|x items IH] using rev_ind; [done|].
  rewrite group_by_source_snoc, dict_append_sizes, IH, length_app.
  simpl. lia.
Qed.

Lemma elem_of_group_keys items s :
  s ∈ (group_by_source items).*1 ↔ s ∈ source <$> items.
Proof.
  rewrite group_by_source_keys, elem_of_reverse, elem_of_remove_dups.
  apply elem_of_reverse.
Qed.

Lemma Counter_sizes items :
  Counter (map source items)
  = map (λ g, (g.1, length g.2)) (group_by_source items).
Proof.
  unfold Counter, group_by_source.
  change (@nil (string * nat))
    with (map (λ g : string * list NewsItem, (g.1, length g.2)) []).
  generalize (@nil (string * list NewsItem)) as d.
  induction items as [|x items IH]; intros d; simpl; [done|].
  by rewrite (counter_incr_sizes d (source x) x), IH.
Qed.

(** The dictionary of the report: the groups, sorted. *)
Lemma news_by_source_eq {A} today (a : A) items :
  news_by_source (_prepare_data today a items)
  = sorted_desc (λ g, length g.2) (group_by_source items).
Proof.
  unfold _prepare_data. cbn [news_by_source].
  apply dict_of_pairs_NoDup. rewrite sorted_desc_perm.
  apply group_by_source_NoDup.
Qed.
End report_facts.

(** X16. The groups of the report: the keys of [news_by_source] are
    distinct, and a source is a key exactly when some item has it; its group
    then holds the items of that source, all of them, in the order of the
    input. *)
Theorem news_by_source_groups {A} (today : string) (a : A)
    (items : list NewsItem) :
  let d := news_by_source (_prepare_data today a items) in
  NoDup d.*1
  ∧ ∀ s l, dict_get s d = Some l
           ↔ l = filter (λ it, source it = s) items ∧ l ≠ [].
Proof.
  intros d. subst d. rewrite news_by_source_eq.
  assert (NoDup (sorted_desc (λ g : string * list NewsItem, length g.2)
                             (group_by_source items)).*1) as Hnd.
  { rewrite sorted_desc_perm. apply group_by_source_NoDup. }
  split; [exact Hnd|]. intros s l.
  rewrite dict_get_Some_wf by exact Hnd.
  rewrite sorted_desc_perm.
  rewrite <- dict_get_Some_wf by apply group_by_source_NoDup.
  rewrite group_by_source_get.
  destruct (filter _ items) as [|y l']; split.
  - done.
  - by intros [-> ?].
  - intros [= <-]. done.
  - by intros [-> _].
Qed.

(** X17. The order of the report: the groups come by size, largest first;
    groups of the same size come in the order in which the grouping loop
    made them, and the loop makes them in the order in which the sources
    first occur in the input. *)
Theorem news_by_source_order {A} (today : string) (a : A)
    (items : list NewsItem) :
  let d := news_by_source (_prepare_data today a items) in
  (∀ pre g1 mid g2 post,
     d = pre ++ g1 :: mid ++ g2 :: post → (length g2.2 ≤ length g1.2)%nat)
  ∧ (∀ n : nat,
       filter (λ g, length g.2 = n) d
       = filter (λ g, length g.2 = n) (group_by_source items))
  ∧ (group_by_source items).*1
    = reverse (remove_dups (reverse (source <$> items))).
Proof.
  intros d. subst d. rewrite news_by_source_eq. split; [|split].
  - intros pre g1 mid g2 post E.
    exact (descending_split (λ g : string * list NewsItem, length g.2)
             _ _ _ _ _ _ (sorted_desc_descending _ _) E).
  - intros n. apply sorted_desc_filter.
  - apply group_by_source_keys.
Qed.

(** X18. The counts of the report: [total_news] is the sum of the sizes
    of the groups, so every item is in a group once, and [source_count] is
    the number of distinct sources of the input. *)
Theorem prepare_data_counts {A} (today : string) (a : A)
    (items : list NewsItem) :
  let data := _prepare_data today a items in
  total_news data = sum_list_with (λ g, length g.2) (news_by_source data)
  ∧ source_count data = size (list_to_set (source <$> items) : gset string).
Proof.
  intros data.
  assert (source_count data = length (news_by_source data)) as -> by done.
  assert (total_news data = length items) as -> by done.
  subst data. rewrite news_by_source_eq. split.
  - by rewrite sorted_desc_perm, group_by_source_sizes.
  - rewrite sorted_desc_perm.
    rewrite <- (length_fmap fst).
    rewrite <- (size_list_to_set (C:=gset string))
      by apply group_by_source_NoDup.
    f_equal. apply set_eq. intros s.
    by rewrite !elem_of_list_to_set, elem_of_group_keys.
Qed.

(** X19. Statistics and report agree: the rows that the [fetch] command
    prints, source and count, are the groups of the report with their
    sizes, in the same order. *)
Theorem source_counts_agree {A} (today : string) (a : A)
    (items : list NewsItem) :
  source_counts items
  = map (λ g, (g.1, length g.2))
        (news_by_source (_prepare_data today a items)).
Proof.
  rewrite news_by_source_eq. unfold source_counts, most_common.
  rewrite Counter_sizes. by apply sorted_desc_map.
Qed.

(** ** Configuration *)

Lemma truthy_getenv_or (environ : gmap string string) k :
  PyStr.truthy (config.getenv_or environ k "") = false
  ↔ environ !! k = None ∨ environ !! k = Some "".
Proof.
  unfold config.getenv_or. destruct (environ !! k) as [[|c s]|]; simpl;
    split; try done; (by left) || (by right) || (by intros [|]).
Qed.

(** X20. The AI key: [DASHSCOPE_API_KEY] is used when it is set and not
    empty, and [AI_API_KEY] otherwise; [validate_config] reports nothing
    exactly when one of the two variables is set and not empty. *)
Theorem validate_config_complete (environ : gmap string string) :
  (∀ v, environ !! "DASHSCOPE_API_KEY" = Some v → v ≠ "" →
        config.AI_API_KEY environ = v)
  ∧ ((environ !! "DASHSCOPE_API_KEY" = None
      ∨ environ !! "DASHSCOPE_API_KEY" = Some "") →
     config.AI_API_KEY environ = default "" (environ !! "AI_API_KEY"))
  ∧ (config.validate_config environ = []
     ↔ (∃ v, environ !! "DASHSCOPE_API_KEY" = Some v ∧ v ≠ "")
       ∨ (∃ v, environ !! "AI_API_KEY" = Some v ∧ v ≠ "")).
Proof.
  unfold config.validate_config, config.AI_API_KEY, config.getenv,
    config.getenv_or.
  destruct (environ !! "DASHSCOPE_API_KEY") as [[|c s]|] eqn:Ed;
    destruct (environ !! "AI_API_KEY") as [[|c' s']|] eqn:Ea; simpl;
    (split; [by intros v [= <-]|]);
    (split; [try done; by intros [|]|]);
    split; try done; eauto;
    intros [(v & [= <-] & Hv)|(v & [= <-] & Hv)]; done.
Qed.

Lemma elem_of_missing3 (b1 b2 b3 : bool) (k1 k2 k3 k : string) :
  k ∈ (let missing := [] in
       let missing := if b1 then missing ++ [k1] else missing in
       let missing := if b2 then missing ++ [k2] else missing in
       let missing := if b3 then missing ++ [k3] else missing in
       missing)
  ↔ (b1 = true ∧ k = k1) ∨ (b2 = true ∧ k = k2) ∨ (b3 = true ∧ k = k3).
Proof.
  destruct b1, b2, b3; simpl;
    rewrite ?elem_of_cons, elem_of_nil; split; try tauto;
    intros [[? ?]|[[? ?]|[? ?]]]; try done; tauto.
Qed.

(** X21. The mail settings: [validate_email_config] lists a name exactly
    when it is one of [SMTP_USER], [SMTP_PASSWORD] and [EMAIL_TO] and the
    variable is unset or empty, in that order; [SMTP_HOST] and the port are
    not looked at. *)
Theorem validate_email_config_missing (environ : gmap string string) :
  (∀ k, k ∈ config.validate_email_config environ
        ↔ k ∈ ["SMTP_USER"; "SMTP_PASSWORD"; "EMAIL_TO"]
          ∧ (environ !! k = None ∨ environ !! k = Some ""))
  ∧ config.validate_email_config environ
    `sublist_of` ["SMTP_USER"; "SMTP_PASSWORD"; "EMAIL_TO"].
Proof.
  split.
  - intros k. unfold config.validate_email_config.
    rewrite elem_of_missing3, !negb_true_iff.
    unfold config.SMTP_USER, config.SMTP_PASSWORD, config.EMAIL_TO.
    rewrite !truthy_getenv_or, !elem_of_cons, elem_of_nil.
    split.
    + intros [[H ->]|[[H ->]|[H ->]]]; tauto.
    + intros [[->|[->|[->|[]]]] H]; tauto.
  - unfold config.validate_email_config.
    destruct (negb _), (negb _), (negb _); simpl;
      repeat (by constructor) || (apply sublist_skip)
             || (apply sublist_cons) || (apply sublist_nil_l).
Qed.

(** ** The mail sender *)

Lemma mail_validate_config_nil (self : mail.EmailSender) :
  mail.validate_config self = []
  ↔ mail.host self ≠ "" ∧ mail.user self ≠ ""
    ∧ mail.password self ≠ "" ∧ mail.to_email self ≠ "".
Proof.
  unfold mail.validate_config.
  destruct (mail.host self), (mail.user self), (mail.password self),
    (mail.to_email self); simpl; split; try done; tauto.
Qed.

(** X22. No mail without a complete configuration: when the host, the
    user, the password or the configured recipient of the sender is empty,
    [send] prints what is missing and returns [False], whatever the mail
    libraries would do and also when a recipient is passed to the call. *)
Theorem send_needs_complete_config
    (self : mail.EmailSender) (path_exists : string → bool)
    (deliver : mail.delivery → mail.try_result) (subject body : string)
    (attachment_path to_email0 html_body : option string) :
  mail.host self = "" ∨ mail.user self = "" ∨ mail.password self = ""
  ∨ mail.to_email self = "" →
  mail.send path_exists deliver self subject body attachment_path
            to_email0 html_body
  = ([mail.ConfigIncomplete (mail.validate_config self)], Return false).
Proof.
  intros H. unfold mail.send.
  destruct (mail.validate_config self) as [|k ks] eqn:E; [|done].
  apply mail_validate_config_nil in E. tauto.
Qed.

Lemma send_needs_complete_config_witness :
  let self := mail.mkEmailSender "smtp.qq.com" 465 "me@qq.com" "secret" "" in
  mail.send (λ _, true) (λ _, mail.Sent) self "subject" "body" None
            (Some "you@qq.com") None
  = ([mail.ConfigIncomplete ["EMAIL_TO"]], Return false).
Proof.
  intros self.
  exact (send_needs_complete_config self (λ _, true) (λ _, mail.Sent)
           "subject" "body" None (Some "you@qq.com") None
           (or_intror (or_intror (or_intror eq_refl)))).
Defined.

(** X23. What [send] returns: it does not raise an [Exception]; it returns
    [True] only if the mail libraries got to the end of the delivery, with
    the line of success naming the recipient passed to the call or, without
    one, the configured recipient; and if the delivery always gets to the
    end, it returns [True] exactly when the configuration is complete. *)
Theorem send_outcome
    (self : mail.EmailSender) (path_exists : string → bool)
    (deliver : mail.delivery → mail.try_result) (subject body : string)
    (attachment_path to_email0 html_body : option string) :
  let run := mail.send path_exists deliver self subject body
                       attachment_path to_email0 html_body in
  (∀ msg, run.2 ≠ Raise (PyException msg))
  ∧ (run.2 = Return true →
     (∃ request, deliver request = mail.Sent
                 ∧ mail.ssl request = bool_decide (mail.port self = 465%Z)
                 ∧ mail.mail_to request
                   = mail.str_or to_email0 (mail.to_email self))
     ∧ run.1 = [mail.SendSucceeded
                  (mail.str_or to_email0 (mail.to_email self))])
  ∧ ((∀ request, deliver request = mail.Sent) →
     run.2 = Return (bool_decide (mail.validate_config self = []))).
Proof.
  intros run. subst run. unfold mail.send.
  destruct (mail.validate_config self) as [|k ks] eqn:E; simpl.
  - match goal with |- context [deliver ?r] => set (request := r) end.
    split; [|split].
    + intros msg. by destruct (deliver request) as [| | |[m|]].
    + destruct (deliver request) as [| | |[m|]] eqn:Hd; try done.
      intros _. split; [|done]. by exists request.
    + intros Hall. by rewrite Hall.
  - repeat split; try done.
Qed.

(** X24. The two checks of the mail settings: a sender built without
    arguments from the configuration reports as missing what
    [validate_email_config] reports, preceded by [SMTP_HOST] when that
    variable is set to the empty string. *)
Theorem mail_checks_agree (environ : gmap string string) (SMTP_PORT : Z) :
  let self := mail.init (config.SMTP_HOST environ) SMTP_PORT
                (config.SMTP_USER environ) (config.SMTP_PASSWORD environ)
                (config.EMAIL_TO environ) None None None None None in
  mail.validate_config self
  = (if bool_decide (environ !! "SMTP_HOST" = Some "")
     then ["SMTP_HOST"] else [])
    ++ config.validate_email_config environ.
Proof.
  intros self. subst self.
  unfold mail.validate_config, config.validate_email_config, mail.init.
  cbn [mail.host mail.user mail.password mail.to_email mail.str_or].
  assert (negb (PyStr.truthy (config.SMTP_HOST environ))
          = bool_decide (environ !! "SMTP_HOST" = Some "")) as ->.
  { unfold config.SMTP_HOST, config.getenv_or.
    destruct (environ !! "SMTP_HOST") as [[|c s]|]; done. }
  destruct (bool_decide _), (negb _), (negb _), (negb _); done.
Qed.

(** ** Parsing one entry of a feed *)

Lemma length_lstrip s : (String.length (PyStr.lstrip s) ≤ String.length s)%nat.
Proof.
  induction s as [|c s IH]; simpl; [done|].
  destruct (PyStr.isspace c); simpl; lia.
Qed.

Lemma length_rstrip s : (String.length (PyStr.rstrip s) ≤ String.length s)%nat.
Proof.
  induction s as [|c s IH]; simpl; [done|].
  destruct (PyStr.rstrip s); [destruct (PyStr.isspace c)|]; simpl in *; lia.
Qed.

Lemma length_strip s : (String.length (PyStr.strip s) ≤ String.length s)%nat.
Proof.
  unfold PyStr.strip. pose proof (length_rstrip (PyStr.lstrip s)).
  pose proof (length_lstrip s). lia.
Qed.

Lemma length_str_take n s : (String.length (rss.str_take n s) ≤ n)%nat.
Proof.
  revert s. induction n as [|n IH]; intros [|c s]; simpl; try lia.
  specialize (IH s). lia.
Qed.

Lemma length_clean s : (String.length (clean (Some s)) ≤ String.length s)%nat.
Proof. rewrite clean_strip. apply length_strip. Qed.

Lemma parse_entry_item_aux
    (T : Type) (source_name : string) (get_text : string → outcome string)
    (isoformat : T → option string) (entry : rss.Entry T) (item : NewsItem) :
  rss._parse_entry T source_name get_text isoformat entry
  = Return (Some item) →
  title item = PyStr.strip (default "" (rss.entry_title entry))
  ∧ title item ≠ ""
  ∧ source item = source_name
  ∧ url item = default "" (rss.entry_link entry)
  ∧ score item = 0%Z
  ∧ (String.length (summary item) ≤ 500)%nat.
Proof.
  unfold rss._parse_entry.
  destruct (PyStr.truthy (PyStr.strip _)) eqn:Ht; [|done]. simpl negb.
  cbn iota. apply PyStrFacts.truthy_true in Ht.
  match goal with
  | |- context [PyStr.truthy ?s] => set (summary0 := s)
  end.
  destruct (PyStr.truthy summary0) eqn:Hs.
  - destruct (get_text summary0) as [text|e]; [|done].
    pose proof (length_str_take 500 text) as Hlen. revert Hlen.
    generalize (rss.str_take 500 text) as summary1.
    intros summary1 Hlen [= <-].
    cbn [title summary source url score new_NewsItem].
    rewrite !clean_strip, PyStrFacts.strip_idem.
    repeat split; try done.
    pose proof (length_strip summary1). lia.
  - apply PyStrFacts.truthy_false in Hs. rewrite Hs.
    intros [= <-]. cbn [title summary source url score new_NewsItem].
    rewrite !clean_strip, PyStrFacts.strip_idem.
    repeat split; try done. simpl. lia.
Qed.

(** X25. One entry of a feed: an entry whose title is missing or blank
    gives no item. An item that [_parse_entry] returns has the title of the
    entry, trimmed and not empty, the name of the source as [source], the
    link of the entry as [url] (empty when there is none), the score [0],
    and a summary of at most 500 characters. *)
Theorem parse_entry_item
    (T : Type) (source_name : string) (get_text : string → outcome string)
    (isoformat : T → option string) (entry : rss.Entry T) :
  (PyStr.strip (default "" (rss.entry_title entry)) = "" →
   rss._parse_entry T source_name get_text isoformat entry = Return None)
  ∧ (∀ item,
       rss._parse_entry T source_name get_text isoformat entry
       = Return (Some item) →
       title item = PyStr.strip (default "" (rss.entry_title entry))
       ∧ title item ≠ ""
       ∧ source item = source_name
       ∧ url item = default "" (rss.entry_link entry)
       ∧ score item = 0%Z
       ∧ (String.length (summary item) ≤ 500)%nat).
Proof.
  split; [|apply parse_entry_item_aux].
  unfold rss._parse_entry. by intros ->.
Qed.

Lemma parse_entries_elem {entry} (p : entry → outcome (option NewsItem))
    entries items item :
  item ∈ (parse_entries entry p entries items).1 →
  item ∈ items ∨ ∃ e, e ∈ entries ∧ p e = Return (Some item).
Proof.
  revert items. induction entries as [|e rest IH]; intros items; simpl.
  - by left.
  - destruct (p e) as [[it|]|exc] eqn:He; simpl.
    + intros [[Hin| ->%list_elem_of_singleton]%elem_of_app
             |(e' & Hin & He')]%IH.
      * by left.
      * right. exists e. split; [apply list_elem_of_here|done].
      * right. exists e'. split; [by apply list_elem_of_further|done].
    + intros [Hin|(e' & Hin & He')]%IH; [by left|].
      right. exists e'. split; [by apply list_elem_of_further|done].
    + by left.
Qed.

Lemma RSS_fetch_elem (rss_name feed_url : string) {entry}
    (feed : outcome (http_response (list entry)))
    (p : entry → outcome (option NewsItem)) limit items item :
  result (RSS_fetch rss_name feed_url entry feed p limit)
  = Return (FList items) →
  item ∈ items → ∃ e, p e = Return (Some item).
Proof.
  unfold RSS_fetch. destruct (negb _).
  { intros [= <-]. by intros ?%elem_of_nil. }
  assert (∀ item, item ∈ (rss_try entry feed p limit).1 →
                  ∃ e, p e = Return (Some item)) as Htry.
  { intros it. unfold rss_try.
    destruct feed as [resp|exc]; [|by intros ?%elem_of_nil].
    case_decide; [by intros ?%elem_of_nil|].
    destruct (payload resp) as [entries|exc]; [|by intros ?%elem_of_nil].
    intros [Hin|(e & _ & He)]%parse_entries_elem;
      [by apply elem_of_nil in Hin|by exists e]. }
  destruct (rss_try entry feed p limit) as [its [[msg|]|]]; simpl in *;
    [intros [= <-]; apply Htry|done|intros [= <-]; apply Htry].
Qed.

(** X26. What an RSS source returns: with the parser of [rss_feeds.py],
    every item in the list that [fetch] returns carries the name of the
    source as [source], a title that is not empty, the score [0] and a
    summary of at most 500 characters. *)
Theorem RSS_items_wellformed
    (rss_name rss_description feed_url : string) (rss_enabled : bool)
    (T : Type) (feed : outcome (http_response (list (rss.Entry T))))
    (get_text : string → outcome string) (isoformat : T → option string)
    (limit : Z) (items : list NewsItem) :
  fetch (RSSSource rss_name rss_description feed_url rss_enabled
                   (rss.Entry T) feed
                   (rss._parse_entry T rss_name get_text isoformat)) limit
  = Return (FList items) →
  Forall (λ item, source item = rss_name ∧ title item ≠ ""
                  ∧ score item = 0%Z
                  ∧ (String.length (summary item) ≤ 500)%nat) items.
Proof.
  cbn [fetch RSSSource]. intros Hfetch. apply Forall_forall. intros item Hin.
  destruct (RSS_fetch_elem _ _ _ _ _ _ _ Hfetch Hin) as [e He].
  destruct (parse_entry_item_aux T rss_name get_text isoformat e item He)
    as (_ & ? & ? & _ & ? & ?).
  done.
Qed.

Lemma RSS_items_wellformed_witness :
  let item :=
    mkNewsItem "Rocq 9.1 released" "https://a/1" "New release" "Feed"
               "2025-09-15T08:00:00" 0
               [("author", PStr "ann"); ("tags", PList [PStr "release"])] in
  fetch (RSSSource "Feed" "" "https://a/feed" true (rss.Entry unit)
                   Scenario3.feed
                   (rss._parse_entry unit "Feed" Scenario3.get_text
                                     Scenario3.isoformat)) 10
  = Return (FList [item])
  ∧ Forall (λ item, source item = "Feed" ∧ title item ≠ ""
                    ∧ score item = 0%Z
                    ∧ (String.length (summary item) ≤ 500)%nat) [item].
Proof.
  intros item. split; [reflexivity|].
  exact (RSS_items_wellformed "Feed" "" "https://a/feed" true unit
           Scenario3.feed Scenario3.get_text Scenario3.isoformat 10 [item]
           eq_refl).
Defined.

(** ** The [run] command *)

Lemma fetch_all_returns reg limit :
  ∃ log out, fetch_all reg limit = (log, Return out).
Proof.
  rewrite fetch_all_eq. destruct (get_enabled_sources reg); by eexists _, _.
Qed.

Lemma validate_config_nil environ :
  config.validate_config environ = []
  ↔ PyStr.truthy (config.AI_API_KEY environ) = true.
Proof.
  unfold config.validate_config.
  destruct (PyStr.truthy (config.AI_API_KEY environ)); simpl; split; done.
Qed.

(** With the key that [validate_config] accepts, the constructor of the
    analyzer passes its own check. *)
Lemma ai_init_checked {Client} (OpenAI : string → string → outcome Client)
    environ :
  config.validate_config environ = [] →
  ai.init OpenAI (config.AI_API_KEY environ) (config.AI_BASE_URL environ)
          (config.AI_MODEL environ) None None None
  = match OpenAI (config.AI_API_KEY environ)
                 (config.AI_BASE_URL environ) with
    | Raise e => Raise e
    | Return client1 =>
        Return (ai.mkAIAnalyzer (config.AI_API_KEY environ)
                  (config.AI_BASE_URL environ) (config.AI_MODEL environ)
                  client1)
    end.
Proof.
  intros H%validate_config_nil. unfold ai.init. simpl. by rewrite H.
Qed.

Section run_facts.
Variable environ : gmap string string.
Variable reg : Registry.
Context {Client : Type}.
Implicit Types
  (OpenAI : string → string → outcome Client)
  (ask : ai.AIAnalyzer Client → list NewsItem → outcome ai.AnalysisResult)
  (preview_error : pyval → string)
  (render : bool → ai.AnalysisResult → list NewsItem → outcome string)
  (send_report : string → string → outcome bool)
  (send_email dry_run html_only : bool) (limit : Z).

Lemma run_mail_ending send_report send_email dry_run path summary0 :
  (cli.run_mail environ send_report send_email dry_run path summary0).2
  = cli.Completed
  ∨ ∃ e, (cli.run_mail environ send_report send_email dry_run path
                       summary0).2 = cli.Uncaught e.
Proof.
  unfold cli.run_mail. destruct (send_email && negb dry_run); [|by left].
  destruct (send_report _ _) as [[|]|e]; [by left..|right; by exists e].
Qed.

(** Past the fetch, [run] reaches its end or fails: it does not raise
    [typer.Exit]. *)
Lemma run_report_ending OpenAI ask preview_error render send_report
    send_email dry_run html_only items :
  (cli.run_report environ OpenAI ask preview_error render send_report
                  send_email dry_run html_only items).2 = cli.Completed
  ∨ ∃ e, (cli.run_report environ OpenAI ask preview_error render send_report
                         send_email dry_run html_only items).2
         = cli.Uncaught e.
Proof.
  unfold cli.run_report.
  destruct (ai.init _ _ _ _ _ _ _) as [analyzer|e]; [|right; by exists e].
  destruct (ai.analyze ask analyzer items) as [analysis|e];
    [|right; by exists e].
  destruct (ai.summary analysis) as [|b|z|summary0|l|d];
    try (right; by eexists).
  destruct (render html_only analysis items) as [path|e];
    [|right; by exists e].
  destruct (run_mail_ending send_report send_email dry_run path summary0)
    as [H|[e H]];
    destruct (cli.run_mail _ _ _ _ _ _) as [log en]; simpl in *; subst.
  - by left.
  - right. by exists e.
Qed.

(** The four ways through [run]. *)
Lemma run_cases OpenAI ask preview_error render send_report send_email
    dry_run limit html_only :
  let r := cli.run environ reg OpenAI ask preview_error render send_report
                   send_email dry_run limit html_only in
  (config.validate_config environ ≠ []
   ∧ r = ([cli.AIConfigIncomplete (config.validate_config environ);
           cli.CopyEnvHint], cli.Exit 1))
  ∨ (config.validate_config environ = []
     ∧ send_email = true ∧ dry_run = false
     ∧ config.validate_email_config environ ≠ []
     ∧ r = ([cli.EmailConfigIncomplete
               (config.validate_email_config environ)], cli.Exit 1))
  ∨ (config.validate_config environ = []
     ∧ (send_email = true → dry_run = false →
        config.validate_email_config environ = [])
     ∧ result (fetch_all reg limit) = Return []
     ∧ r = (cli.Started :: map cli.Aggregator (printed (fetch_all reg limit))
            ++ [cli.FetchCompleted 0; cli.NothingFetched], cli.Exit 0))
  ∨ (config.validate_config environ = []
     ∧ (send_email = true → dry_run = false →
        config.validate_email_config environ = [])
     ∧ (∃ item items,
          result (fetch_all reg limit) = Return (item :: items)
          ∧ r.2 = (cli.run_report environ OpenAI ask preview_error render
                                  send_report send_email dry_run html_only
                                  (item :: items)).2
          ∧ r.1 = (cli.Started
                   :: map cli.Aggregator (printed (fetch_all reg limit))
                   ++ [cli.FetchCompleted (length (item :: items))])
                  ++ (cli.run_report environ OpenAI ask preview_error render
                        send_report send_email dry_run html_only
                        (item :: items)).1)).
Proof.
  intros r. subst r. unfold cli.run.
  destruct (config.validate_config environ) as [|k ks] eqn:Hcfg;
    [|left; by split].
  right.
  destruct (send_email && negb dry_run) eqn:Hmail.
  - apply andb_true_iff in Hmail as [-> ->%negb_true_iff].
    destruct (config.validate_email_config environ) as [|k ks] eqn:Hem;
      [|left; by repeat split].
    right.
    destruct (fetch_all_returns reg limit) as (log & out & Hf).
    rewrite Hf. unfold result, printed. simpl fst. simpl snd.
    destruct out as [|item items].
    + left. repeat split; try done.
      by rewrite <- app_comm_cons, <- app_assoc.
    + right. repeat split; try done. exists item, items.
      split; [done|].
      destruct (cli.run_report _ _ _ _ _ _ _ _ _ _) as [log' e]. by split.
  - right.
    assert (send_email = true → dry_run = false →
            config.validate_email_config environ = []) as Hem.
    { intros -> ->. done. }
    destruct (fetch_all_returns reg limit) as (log & out & Hf).
    rewrite Hf. unfold result, printed. simpl fst. simpl snd.
    destruct out as [|item items].
    + left. repeat split; try done.
      by rewrite <- app_comm_cons, <- app_assoc.
    + right. repeat split; try done. exists item, items.
      split; [done|].
      destruct (cli.run_report _ _ _ _ _ _ _ _ _ _) as [log' e]. by split.
Qed.

(** Where [run] stops at the configuration, the rest of the world is not
    looked at. *)
Lemma run_stops_at_configuration OpenAI ask preview_error render send_report
    send_email dry_run limit html_only :
  config.validate_config environ ≠ []
  ∨ (send_email = true ∧ dry_run = false
     ∧ config.validate_email_config environ ≠ []) →
  ∀ reg' OpenAI' ask' preview_error' render' send_report' limit' html_only',
    cli.run environ reg' OpenAI' ask' preview_error' render' send_report'
            send_email dry_run limit' html_only'
    = cli.run environ reg OpenAI ask preview_error render send_report
              send_email dry_run limit html_only.
Proof.
  intros H reg' OpenAI' ask' preview_error' render' send_report' limit'
    html_only'.
  unfold cli.run.
  destruct (config.validate_config environ) as [|k ks]; [|done].
  destruct H as [?|(-> & -> & Hem)]; [done|]. simpl.
  by destruct (config.validate_email_config environ).
Qed.
End run_facts.

(** X27. Where [run] raises [typer.Exit(1)]: exactly when the AI key is
    missing, or when mail is to be sent ([--send-email] without [--dry-run])
    and a mail setting is missing. It does so before anything is fetched:
    the line that opens the run is not printed, and what is printed does not
    depend on the registry, the limit or the services. An exception that
    nothing catches is another ending of the command. *)
Theorem run_exit_1
    (environ : gmap string string) (reg : Registry) (Client : Type)
    (OpenAI : string → string → outcome Client)
    (ask : ai.AIAnalyzer Client → list NewsItem → outcome ai.AnalysisResult)
    (preview_error : pyval → string)
    (render : bool → ai.AnalysisResult → list NewsItem → outcome string)
    (send_report : string → string → outcome bool)
    (send_email dry_run : bool) (limit : Z) (html_only : bool) :
  let r := cli.run environ reg OpenAI ask preview_error render send_report
                   send_email dry_run limit html_only in
  (r.2 = cli.Exit 1
   ↔ config.validate_config environ ≠ []
     ∨ (send_email = true ∧ dry_run = false
        ∧ config.validate_email_config environ ≠ []))
  ∧ (r.2 = cli.Exit 1 →
     (cli.Started ∉ r.1)
     ∧ ∀ reg' (OpenAI' : string → string → outcome Client) ask'
         preview_error' render' send_report' limit' html_only',
         cli.run environ reg' OpenAI' ask' preview_error' render'
                 send_report' send_email dry_run limit' html_only' = r).
Proof.
  intros r.
  assert (r.2 = cli.Exit 1
          ↔ config.validate_config environ ≠ []
            ∨ (send_email = true ∧ dry_run = false
               ∧ config.validate_email_config environ ≠ [])) as Hiff.
  { destruct (run_cases environ reg OpenAI ask preview_error render
                send_report send_email dry_run limit html_only)
      as [[Hcfg Hr]|[(Hcfg & -> & -> & Hem & Hr)
         |[(Hcfg & Hem & Hf & Hr)
          |(Hcfg & Hem & item & items & Hf & Hr2 & Hr1)]]];
      fold r in Hr || fold r in Hr2, Hr1.
    - rewrite Hr. split; [by left|done].
    - rewrite Hr. split; [by right|done].
    - rewrite Hr. simpl. split; [done|].
      intros [?|(-> & -> & ?)]; [done|]. by rewrite Hem in *.
    - rewrite Hr2.
      destruct (run_report_ending environ OpenAI ask preview_error render
                  send_report send_email dry_run html_only (item :: items))
        as [->|(e & ->)]; (split; [done|]);
        (intros [?|(-> & -> & ?)]; [done|]); by rewrite Hem in *. }
  split; [exact Hiff|]. intros Hr%Hiff. split.
  - destruct (run_cases environ reg OpenAI ask preview_error render
                send_report send_email dry_run limit html_only)
      as [[Hcfg Hr']|[(Hcfg & -> & -> & Hem & Hr')
         |[(Hcfg & Hem & Hf & Hr')
          |(Hcfg & Hem & item & items & Hf & Hr2 & Hr1)]]];
      fold r in Hr' || fold r in Hr2, Hr1.
    + rewrite Hr'.
      intros [[=]|[[=]|[]%elem_of_nil]%elem_of_cons]%elem_of_cons.
    + rewrite Hr'. intros [[=]|[]%elem_of_nil]%elem_of_cons.
    + destruct Hr as [?|(-> & -> & ?)]; [done|]. by rewrite Hem in *.
    + destruct Hr as [?|(-> & -> & ?)]; [done|]. by rewrite Hem in *.
  - intros. by apply run_stops_at_configuration.
Qed.

(** X28. Where [run] raises [typer.Exit(0)]: exactly when the configuration
    is complete and [fetch_all] returned the empty list; and when
    [fetch_all] returns the empty list, what [run] prints and how it ends
    do not depend on the analyzer, on the report generator or on the mail
    sender. Reaching the end of the command is another ending. *)
Theorem run_stops_on_empty_fetch
    (environ : gmap string string) (reg : Registry) (Client : Type)
    (OpenAI : string → string → outcome Client)
    (ask : ai.AIAnalyzer Client → list NewsItem → outcome ai.AnalysisResult)
    (preview_error : pyval → string)
    (render : bool → ai.AnalysisResult → list NewsItem → outcome string)
    (send_report : string → string → outcome bool)
    (send_email dry_run : bool) (limit : Z) (html_only : bool) :
  ((cli.run environ reg OpenAI ask preview_error render send_report
            send_email dry_run limit html_only).2 = cli.Exit 0
   ↔ config.validate_config environ = []
     ∧ (send_email = true → dry_run = false →
        config.validate_email_config environ = [])
     ∧ result (fetch_all reg limit) = Return [])
  ∧ (result (fetch_all reg limit) = Return [] →
     ∀ (OpenAI' : string → string → outcome Client) ask' preview_error'
       render' send_report',
       cli.run environ reg OpenAI ask preview_error render send_report
               send_email dry_run limit html_only
       = cli.run environ reg OpenAI' ask' preview_error' render'
                 send_report' send_email dry_run limit html_only).
Proof.
  split.
  - destruct (run_cases environ reg OpenAI ask preview_error render
                send_report send_email dry_run limit html_only)
      as [[Hcfg Hr]|[(Hcfg & -> & -> & Hem & Hr)
         |[(Hcfg & Hem & Hf & Hr)
          |(Hcfg & Hem & item & items & Hf & Hr2 & Hr1)]]].
    + rewrite Hr. simpl. split; [done|]. by intros [? _].
    + rewrite Hr. simpl. split; [done|]. intros (_ & H & _).
      by rewrite H in Hem.
    + rewrite Hr. simpl. by split.
    + rewrite Hr2.
      destruct (run_report_ending environ OpenAI ask preview_error render
                  send_report send_email dry_run html_only (item :: items))
        as [->|(e & ->)]; (split; [done|]); intros (_ & _ & H);
        rewrite Hf in H; done.
  - intros Hf OpenAI' ask' preview_error' render' send_report'.
    unfold cli.run.
    destruct (fetch_all reg limit) as [log o]. unfold result in Hf.
    simpl in Hf. subst o. done.
Qed.

Lemma run_without_mail
    (environ : gmap string string) (reg : Registry) (Client : Type)
    (OpenAI : string → string → outcome Client)
    (ask : ai.AIAnalyzer Client → list NewsItem → outcome ai.AnalysisResult)
    (preview_error : pyval → string)
    (render : bool → ai.AnalysisResult → list NewsItem → outcome string)
    (send_report : string → string → outcome bool)
    (send_email dry_run : bool) (limit : Z) (html_only : bool) :
  send_email && negb dry_run = false →
  Forall (λ ev, ev ≠ cli.MailNotSent
                ∧ (∀ r, ev ≠ cli.MailSentTo r)
                ∧ ∀ m, ev ≠ cli.EmailConfigIncomplete m)
         (cli.run environ reg OpenAI ask preview_error render send_report
                  send_email dry_run limit html_only).1.
Proof.
  intros Hflag. unfold cli.run, cli.run_report, cli.run_mail.
  rewrite Hflag.
  assert (∀ log : list event,
            Forall (λ ev, ev ≠ cli.MailNotSent
                          ∧ (∀ r, ev ≠ cli.MailSentTo r)
                          ∧ ∀ m, ev ≠ cli.EmailConfigIncomplete m)
                   (map cli.Aggregator log)) as Hagg.
  { intros log. apply Forall_forall. intros ev Hev.
    apply list_elem_of_In, in_map_iff in Hev as (x & <- & _). done. }
  destruct (config.validate_config environ); [|by repeat constructor].
  destruct (fetch_all reg limit) as [log [out|e]];
    [|constructor; [done|apply Hagg]].
  destruct out as [|item items].
  { rewrite <- app_comm_cons. constructor; [done|].
    rewrite !Forall_app. split; [split; [apply Hagg|]|]; by repeat constructor. }
  assert (∀ tail : list cli.run_event,
            Forall (λ ev, ev ≠ cli.MailNotSent
                          ∧ (∀ r, ev ≠ cli.MailSentTo r)
                          ∧ ∀ m, ev ≠ cli.EmailConfigIncomplete m) tail →
            Forall (λ ev, ev ≠ cli.MailNotSent
                          ∧ (∀ r, ev ≠ cli.MailSentTo r)
                          ∧ ∀ m, ev ≠ cli.EmailConfigIncomplete m)
                   ((cli.Started :: map cli.Aggregator log
                     ++ [cli.FetchCompleted (length (item :: items))])
                    ++ tail)) as Hpre.
  { intros tail Htail. rewrite <- app_comm_cons. constructor; [done|].
    rewrite !Forall_app. split; [split; [apply Hagg|]|done].
    by repeat constructor. }
  destruct (ai.init _ _ _ _ _ _ _) as [analyzer|e];
    [|apply Hpre; constructor].
  destruct (ai.analyze ask analyzer (item :: items)) as [analysis|e];
    [|apply Hpre; constructor].
  destruct (ai.summary analysis) as [|b|z|summary0|l|d];
    try (apply Hpre; by repeat constructor).
  destruct (render html_only analysis (item :: items)) as [path|e];
    apply Hpre; by repeat constructor.
Qed.

(** X29. Mail only when asked for: without [--send-email], and likewise
    with [--dry-run], [run] prints no line about mail, and what it prints
    and how it ends do not depend on the mail sender. *)
Theorem run_mail_only_when_asked
    (environ : gmap string string) (reg : Registry) (Client : Type)
    (OpenAI : string → string → outcome Client)
    (ask : ai.AIAnalyzer Client → list NewsItem → outcome ai.AnalysisResult)
    (preview_error : pyval → string)
    (render : bool → ai.AnalysisResult → list NewsItem → outcome string)
    (send_report : string → string → outcome bool)
    (send_email dry_run : bool) (limit : Z) (html_only : bool) :
  send_email = false ∨ dry_run = true →
  (∀ send_report',
     cli.run environ reg OpenAI ask preview_error render send_report
             send_email dry_run limit html_only
     = cli.run environ reg OpenAI ask preview_error render send_report'
               send_email dry_run limit html_only)
  ∧ Forall (λ ev, ev ≠ cli.MailNotSent
                  ∧ (∀ r, ev ≠ cli.MailSentTo r)
                  ∧ ∀ m, ev ≠ cli.EmailConfigIncomplete m)
           (cli.run environ reg OpenAI ask preview_error render send_report
                    send_email dry_run limit html_only).1.
Proof.
  intros Hflag.
  assert (send_email && negb dry_run = false) as Hb.
  { destruct Hflag as [-> | ->]; [done|apply andb_false_r]. }
  split; [|by apply run_without_mail].
  intros send_report'. unfold cli.run, cli.run_report, cli.run_mail.
  by rewrite Hb.
Qed.

Lemma run_mail_only_when_asked_witness :
  Forall (λ ev, ev ≠ cli.MailNotSent
                ∧ (∀ r, ev ≠ cli.MailSentTo r)
                ∧ ∀ m, ev ≠ cli.EmailConfigIncomplete m)
         (cli.run Scenario4.environ Scenario.registry Scenario4.OpenAI
                  Scenario4.answer Scenario4.preview_error Scenario4.render
                  Scenario4.send_report true true 10 false).1.
Proof.
  exact (proj2 (run_mail_only_when_asked Scenario4.environ Scenario.registry
                  unit Scenario4.OpenAI Scenario4.answer
                  Scenario4.preview_error Scenario4.render
                  Scenario4.send_report true true 10 false
                  (or_intror eq_refl))).
Defined.

(** X30. The key is checked once: whenever [run] does not stop with
    [typer.Exit(1)], the check of the key in the constructor of the analyzer
    passes, for the key that [config] read is the one that [run] has
    validated. [AIAnalyzer()] then raises what the constructor of the client
    raises and nothing of its own, and otherwise holds the key, the address
    and the model of [config]. *)
Theorem run_key_checked
    (environ : gmap string string) (reg : Registry) (Client : Type)
    (OpenAI : string → string → outcome Client)
    (ask : ai.AIAnalyzer Client → list NewsItem → outcome ai.AnalysisResult)
    (preview_error : pyval → string)
    (render : bool → ai.AnalysisResult → list NewsItem → outcome string)
    (send_report : string → string → outcome bool)
    (send_email dry_run : bool) (limit : Z) (html_only : bool) :
  (cli.run environ reg OpenAI ask preview_error render send_report
           send_email dry_run limit html_only).2 ≠ cli.Exit 1 →
  PyStr.truthy (config.AI_API_KEY environ) = true
  ∧ ai.init OpenAI (config.AI_API_KEY environ) (config.AI_BASE_URL environ)
            (config.AI_MODEL environ) None None None
    = match OpenAI (config.AI_API_KEY environ)
                   (config.AI_BASE_URL environ) with
      | Raise e => Raise e
      | Return client1 =>
          Return (ai.mkAIAnalyzer (config.AI_API_KEY environ)
                    (config.AI_BASE_URL environ) (config.AI_MODEL environ)
                    client1)
      end.
Proof.
  intros Hr.
  assert (config.validate_config environ = []) as Hcfg.
  { destruct (run_cases environ reg OpenAI ask preview_error render
                send_report send_email dry_run limit html_only)
      as [[Hcfg Hr']|[(Hcfg & _)|[(Hcfg & _)|(Hcfg & _)]]]; try done.
    rewrite Hr' in Hr. by destruct Hr. }
  split; [by apply validate_config_nil|by apply ai_init_checked].
Qed.

Lemma run_key_checked_witness :
  (cli.run Scenario4.environ Scenario.registry Scenario4.OpenAI
           Scenario4.ask Scenario4.preview_error Scenario4.render
           Scenario4.send_report false false 10 false).2
  = cli.Uncaught (PyException "quota")
  ∧ PyStr.truthy (config.AI_API_KEY Scenario4.environ) = true.
Proof.
  assert ((cli.run Scenario4.environ Scenario.registry Scenario4.OpenAI
             Scenario4.ask Scenario4.preview_error Scenario4.render
             Scenario4.send_report false false 10 false).2
          = cli.Uncaught (PyException "quota")) as H
    by (vm_compute; reflexivity).
  split; [exact H|].
  assert ((cli.run Scenario4.environ Scenario.registry Scenario4.OpenAI
             Scenario4.ask Scenario4.preview_error Scenario4.render
             Scenario4.send_report false false 10 false).2
          ≠ cli.Exit 1) as Hne.
  { rewrite H. discriminate. }
  exact (proj1 (run_key_checked Scenario4.environ Scenario.registry
                  unit Scenario4.OpenAI Scenario4.ask
                  Scenario4.preview_error Scenario4.render
                  Scenario4.send_report false false 10 false Hne)).
Defined.
